(** * Anomalies map (ML plugin) and saved-object registration (actions plugin)

    A shallow embedding of two TypeScript sources:

    - the anomalies-map component ([getAnomalyRows],
      [getChoroplethAnomaliesLayer], [getEMSTermSuggestions], [layerList]);
    - [setupSavedObjects] of the actions plugin.

    JavaScript values are modelled as follows.
    - [string] is a JS string, [option string] a value that is a string or
      [undefined] ([None]).
    - A [number] that is finite is an exact rational ([Q]); [Math.floor] is
      [Qfloor].  Severities are anomaly scores, NaN and the infinities are not
      represented.
    - An object used as a dictionary is the list of its own properties in
      creation order; a property read follows the prototype chain to
      [Object.prototype].
    - A [Set] is the duplicate-free list of its elements in insertion order.
    - Code that can write outside its own locals or throw runs in the monad
      [JS], a state monad over [World] with exceptions. *)

From Stdlib Require Import List String Ascii Bool Arith ZArith NArith QArith Qround
  Qminmax Lia Permutation Sorted.
Import ListNotations.

Close Scope Q_scope.
Local Open Scope string_scope.
Local Open Scope list_scope.

(** ** Data model *)

(** [AnomaliesTableRecord] is declared in [common/types/anomalies]; the fields
    are those the component reads.  [entityName] and [entityValue] may be
    [undefined], which the component tests for. *)
Module AnomaliesTableRecord.
Record t : Type := mk {
  jobId : string;
  entityName : option string;
  entityValue : option string;
  severity : Q
}.
End AnomaliesTableRecord.

(** The value type of the [anomalyRows] dictionary. *)
Module AnomalyRow.
Record t : Type := mk {
  count : Z;
  entityValue : option string;
  max_severity : Z
}.
End AnomalyRow.

(** [EMSTermJoinConfig] is declared by the maps plugin; the component
    destructures [layerId] and [field] from it. *)
Module EMSTermJoinConfig.
Record t : Type := mk {
  layerId : string;
  field : string
}.
End EMSTermJoinConfig.

(** [interface MLEMSTermJoinConfig extends EMSTermJoinConfig { jobId }]. *)
Module MLEMSTermJoinConfig.
Record t : Type := mk {
  jobId : string;
  layerId : string;
  field : string
}.
End MLEMSTermJoinConfig.

Definition MAX_ENTITY_VALUES : nat := 3.

Definition COMMON_EMS_LAYER_IDS : list string :=
  [ "world_countries";
    "administrative_regions_lvl2";
    "usa_zip_codes";
    "usa_states" ].

(** ** The world outside the component, and the [JS] monad *)

(** The part of the global state the component can reach.
    [ObjectPrototype_count] tells whether [Object.prototype] has an own
    property [count] (when it has one, it holds NaN, the only value this code
    can store there).  [function_count] lists the function-valued properties
    of [Object.prototype] whose function object has an own property [count]
    (NaN again), in the order they got it.  [idSupply] counts the identifiers
    handed out by [htmlIdGenerator]. *)
Record World : Type := mkWorld {
  ObjectPrototype_count : bool;
  function_count : list string;
  idSupply : nat
}.

(** A freshly loaded page. *)
Definition pristine : World := mkWorld false [] 0.

Inductive Exception : Type :=
| TypeError.

Inductive Completion (A : Type) : Type :=
| Normal (a : A)
| Throw (e : Exception).
Arguments Normal {A} a.
Arguments Throw {A} e.

Definition JS (A : Type) : Type := World -> Completion A * World.

Definition ret {A : Type} (a : A) : JS A := fun w => (Normal a, w).

Definition throw {A : Type} (e : Exception) : JS A := fun w => (Throw e, w).

Definition bind {A B : Type} (m : JS A) (k : A -> JS B) : JS B :=
  fun w =>
    match m w with
    | (Normal a, w') => k a w'
    | (Throw e, w') => (Throw e, w')
    end.

Declare Scope js_scope.
Delimit Scope js_scope with js.
Notation "x <- m ;; k" := (bind m (fun x => k))
  (at level 61, m at next level, right associativity) : js_scope.

(** [for (let i = 0; i < l.length; i++) { s = body(s, l[i]) }], the loop
    variable threaded as [s]; an exception leaves the loop. *)
Fixpoint for_each {S A : Type} (body : S -> A -> JS S) (l : list A) (s : S) : JS S :=
  match l with
  | [] => ret s
  | a :: l' => (s' <- body s a ;; for_each body l' s')%js
  end.

(** ** Objects used as dictionaries *)

(** Own properties, in creation order. *)
Definition Props : Type := list (string * AnomalyRow.t).

Fixpoint own (k : string) (o : Props) : option AnomalyRow.t :=
  match o with
  | [] => None
  | (k', r) :: o' => if String.eqb k k' then Some r else own k o'
  end.

(** Writing through a reference to the object stored under an existing own
    key: the property keeps its place. *)
Fixpoint store (k : string) (r : AnomalyRow.t) (o : Props) : Props :=
  match o with
  | [] => []
  | (k', r') :: o' =>
      if String.eqb k k' then (k', r) :: o' else (k', r') :: store k r o'
  end.

(** [o[k] = r] for a key [o] does not own: a new property, created last. *)
Definition define (k : string) (r : AnomalyRow.t) (o : Props) : Props :=
  o ++ [(k, r)].

(** The function-valued properties of [Object.prototype] (ECMAScript 20.1.3
    and Annex B.2.2). *)
Definition ObjectPrototype_functions : list string :=
  [ "constructor";
    "hasOwnProperty";
    "isPrototypeOf";
    "propertyIsEnumerable";
    "toLocaleString";
    "toString";
    "valueOf";
    "__defineGetter__";
    "__defineSetter__";
    "__lookupGetter__";
    "__lookupSetter__" ].

(** [f.count = NaN] for the function [Object.prototype[f]]: the function
    gets an own [count], or keeps the one it has. *)
Definition write_count (f : string) (written : list string) : list string :=
  if existsb (String.eqb f) written then written else written ++ [f].

(** What a property read [anomalyRows[k]] evaluates to. *)
Inductive Value : Type :=
| undefined
| row (r : AnomalyRow.t)           (* an own property *)
| builtin_function                  (* inherited, e.g. [Object] for "constructor" *)
| ObjectPrototype                   (* the accessor [__proto__] *)
| NaN.                              (* an inherited [count] *)

(** [[Get]]: the own properties first, then [Object.prototype]. *)
Definition Get (w : World) (o : Props) (k : string) : Value :=
  match own k o with
  | Some r => row r
  | None =>
      if existsb (String.eqb k) ObjectPrototype_functions then builtin_function
      else if String.eqb k "__proto__" then ObjectPrototype
      else if String.eqb k "count" && ObjectPrototype_count w then NaN
      else undefined
  end.

(** [ToPropertyKey]: [undefined] becomes the key "undefined". *)
Definition ToPropertyKey (v : option string) : string :=
  match v with
  | Some s => s
  | None => "undefined"
  end.

(** *** [Object.values]

    Own properties are enumerated with the array indices first, in ascending
    numeric order, then the other keys in creation order. *)

Definition digit (c : ascii) : option N :=
  let n := N_of_ascii c in
  if (48 <=? n)%N && (n <=? 57)%N then Some (n - 48)%N else None.

Fixpoint digits (s : string) (acc : N) : option N :=
  match s with
  | EmptyString => Some acc
  | String c s' =>
      match digit c with
      | Some d => digits s' (10 * acc + d)%N
      | None => None
      end
  end.

(** A key is an array index when it is the canonical decimal form of an
    integer below 2^32 - 1. *)
Definition array_index (k : string) : option N :=
  match k with
  | EmptyString => None
  | String c rest =>
      if Ascii.eqb c "0"%char && negb (String.eqb rest EmptyString) then None
      else match digits k 0 with
           | Some n => if (n <? 4294967295)%N then Some n else None
           | None => None
           end
  end.

Fixpoint insert_by_index (n : N) (r : AnomalyRow.t) (l : list (N * AnomalyRow.t))
  : list (N * AnomalyRow.t) :=
  match l with
  | [] => [(n, r)]
  | (m, r') :: l' =>
      if (n <=? m)%N then (n, r) :: l else (m, r') :: insert_by_index n r l'
  end.

Fixpoint integer_keyed (o : Props) : list (N * AnomalyRow.t) :=
  match o with
  | [] => []
  | (k, r) :: o' =>
      match array_index k with
      | Some n => insert_by_index n r (integer_keyed o')
      | None => integer_keyed o'
      end
  end.

Fixpoint string_keyed (o : Props) : list AnomalyRow.t :=
  match o with
  | [] => []
  | (k, r) :: o' =>
      match array_index k with
      | Some _ => string_keyed o'
      | None => r :: string_keyed o'
      end
  end.

Definition Object_values (o : Props) : list AnomalyRow.t :=
  map snd (integer_keyed o) ++ string_keyed o.

(** ** [getAnomalyRows] *)

(** [x > y] on finite numbers. *)
Definition gt (x y : Q) : bool := negb (Qle_bool x y).

(** One iteration of the loop of [getAnomalyRows]. *)
Definition getAnomalyRows_body (jobId : string) (anomalyRows : Props)
    (anomaly : AnomaliesTableRecord.t) : JS Props :=
  let location := AnomaliesTableRecord.entityValue anomaly in
  if negb (String.eqb (AnomaliesTableRecord.jobId anomaly) jobId) then
    ret anomalyRows
  else fun w =>
    match Get w anomalyRows (ToPropertyKey location) with
    | undefined =>
        (* add it to the object and set count to 1 *)
        (Normal
           (define (ToPropertyKey location)
              (AnomalyRow.mk 1 location
                 (Qfloor (AnomaliesTableRecord.severity anomaly)))
              anomalyRows),
         w)
    | row r =>
        let count' := (AnomalyRow.count r + 1)%Z in
        let max_severity' :=
          if gt (AnomaliesTableRecord.severity anomaly)
                (inject_Z (AnomalyRow.max_severity r))
          then Qfloor (AnomaliesTableRecord.severity anomaly)
          else AnomalyRow.max_severity r in
        (Normal
           (store (ToPropertyKey location)
              (AnomalyRow.mk count' (AnomalyRow.entityValue r) max_severity')
              anomalyRows),
         w)
    | builtin_function =>
        (* [f.count += 1] stores NaN on the inherited function object;
           [severity > f.max_severity] compares with undefined and is
           false. *)
        (Normal anomalyRows,
         mkWorld (ObjectPrototype_count w)
           (write_count (ToPropertyKey location) (function_count w))
           (idSupply w))
    | ObjectPrototype =>
        (* [Object.prototype.count += 1] stores NaN; the comparison with
           [Object.prototype.max_severity] is false. *)
        (Normal anomalyRows, mkWorld true (function_count w) (idSupply w))
    | NaN =>
        (* [NaN.count += 1]: assignment to a property of a primitive, a
           TypeError in strict code (modules are strict). *)
        throw TypeError w
    end.

Definition getAnomalyRows (anomalies : list AnomaliesTableRecord.t)
    (jobId : string) : JS (list AnomalyRow.t) :=
  (anomalyRows <- for_each (getAnomalyRows_body jobId) anomalies [] ;;
   ret (Object_values anomalyRows))%js.

(** ** Sampling for the join-configuration suggestion *)

(** [a === b] on values that are strings or [undefined]. *)
Definition strict_eq (a b : option string) : bool :=
  match a, b with
  | Some x, Some y => String.eqb x y
  | None, None => true
  | _, _ => false
  end.

(** [ToBoolean]: [undefined] and the empty string are falsy. *)
Definition ToBoolean (v : option string) : bool :=
  match v with
  | Some s => negb (String.eqb s "")
  | None => false
  end.

(** [Set.prototype.add]: an element already present keeps its place. *)
Definition Set_add (v : option string) (s : list (option string))
  : list (option string) :=
  if existsb (strict_eq v) s then s else s ++ [v].

(** The test guarding [entityValues.add]. *)
Definition sampled (jobId : string) (a : AnomaliesTableRecord.t) : bool :=
  String.eqb jobId (AnomaliesTableRecord.jobId a)
  && negb (strict_eq (AnomaliesTableRecord.entityValue a) (Some ""))
  && negb (strict_eq (AnomaliesTableRecord.entityValue a) None)
  && negb (strict_eq (AnomaliesTableRecord.entityName a) (Some ""))
  && negb (strict_eq (AnomaliesTableRecord.entityName a) None).

(** The [for] loop of the callback given to [jobIds.map], started with the
    set [entityValues] and the variable [entityName]; the [break] ends it. *)
Fixpoint sample_loop (jobId : string) (anomalies : list AnomaliesTableRecord.t)
    (entityValues : list (option string)) (entityName : option string)
  : list (option string) * option string :=
  match anomalies with
  | [] => (entityValues, entityName)
  | a :: rest =>
      let '(entityValues', entityName') :=
        if sampled jobId a then
          (Set_add (AnomaliesTableRecord.entityValue a) entityValues,
           if negb (ToBoolean entityName)
           then AnomaliesTableRecord.entityName a
           else entityName)
        else (entityValues, entityName) in
      if Nat.eqb (List.length entityValues') MAX_ENTITY_VALUES
      then (entityValues', entityName')
      else sample_loop jobId rest entityValues' entityName'
  end.

(** The argument of [mapsPlugin.suggestEMSTermJoinConfig]. *)
Module SampleValuesConfig.
Record t : Type := mk {
  emsLayerIds : list string;
  sampleValues : list (option string);
  sampleValuesColumnName : string
}.
End SampleValuesConfig.

(** [entityName || ''] *)
Definition or_empty (entityName : option string) : string :=
  match entityName with
  | Some s => if ToBoolean entityName then s else ""
  | None => ""
  end.

(** The request built for one job: [new Set()], [let entityName], the loop,
    then the object literal. *)
Definition sampleValuesConfig (anomalies : list AnomaliesTableRecord.t)
    (jobId : string) : SampleValuesConfig.t :=
  let '(entityValues, entityName) := sample_loop jobId anomalies [] None in
  SampleValuesConfig.mk COMMON_EMS_LAYER_IDS entityValues (or_empty entityName).

(** The maps plugin's suggestion service: a request is answered with a join
    configuration or with [null] ([None]). *)
Definition MapsPlugin : Type :=
  SampleValuesConfig.t -> option EMSTermJoinConfig.t.

(** The body of the callback given to [jobIds.map]: [{ jobId, ...suggestion }]
    when the suggestion is truthy, the suggestion itself (null) otherwise. *)
Definition suggest (mapsPlugin : MapsPlugin)
    (anomalies : list AnomaliesTableRecord.t) (jobId : string)
  : option MLEMSTermJoinConfig.t :=
  match mapsPlugin (sampleValuesConfig anomalies jobId) with
  | Some suggestion =>
      Some (MLEMSTermJoinConfig.mk jobId
              (EMSTermJoinConfig.layerId suggestion)
              (EMSTermJoinConfig.field suggestion))
  | None => None
  end.

(** [s !== null] *)
Definition not_null {A : Type} (s : option A) : bool :=
  match s with
  | Some _ => true
  | None => false
  end.

(** The component state [EMSSuggestions]: [undefined] ([None]) until set, then
    an array whose entries are configurations or [null]. *)
Definition EMSSuggestionsState : Type :=
  option (list (option MLEMSTermJoinConfig.t)).

(** [getEMSTermSuggestions]: the state after the call.  [Promise.all] keeps
    the order of [jobIds]; without a maps plugin the state is left alone. *)
Definition getEMSTermSuggestions (mapsPlugin : option MapsPlugin)
    (anomalies : list AnomaliesTableRecord.t) (jobIds : list string)
    (EMSSuggestions : EMSSuggestionsState) : EMSSuggestionsState :=
  match mapsPlugin with
  | None => EMSSuggestions
  | Some plugin =>
      let suggestions := map (suggest plugin anomalies) jobIds in
      Some (filter not_null suggestions)
  end.

(** ** The layer descriptor *)

(** Constants of [maps/common/constants], by name. *)
Inductive SOURCE_TYPES : Type := TABLE_SOURCE.
Inductive STYLE_TYPE : Type := STATIC | DYNAMIC.
Inductive COLOR_MAP_TYPE : Type := ORDINAL.
Inductive FIELD_ORIGIN : Type := JOIN.

(** An identifier made by [htmlIdGenerator()()]; the number tells which call
    made it. *)
Inductive HtmlId : Type := htmlId (n : nat).

(** The arguments of [i18n.translate]. *)
Module I18n.
Record t : Type := translate {
  id : string;
  defaultMessage : string;
  values : list (string * string)
}.
End I18n.

Module Column.
Record t : Type := mk {
  name : string;
  type : string
}.
End Column.

Module TableSource.
Record t : Type := mk {
  id : string;
  type : SOURCE_TYPES;
  __rows : list AnomalyRow.t;
  __columns : list Column.t;
  term : string
}.
End TableSource.

Module Join.
Record t : Type := mk {
  leftField : string;
  right : TableSource.t
}.
End Join.

Module SourceDescriptor.
Record t : Type := mk {
  type : string;
  id : string
}.
End SourceDescriptor.

Module FieldMetaOptions.
Record t : Type := mk {
  isEnabled : bool;
  sigma : option Z
}.
End FieldMetaOptions.

Module StyleField.
Record t : Type := mk {
  name : string;
  origin : FIELD_ORIGIN
}.
End StyleField.

(** The [options] of the four style properties. *)
Inductive StyleOptions : Type :=
| icon_options (value : string)
| fillColor_options (color colorCategory : string)
    (fieldMetaOptions : FieldMetaOptions.t) (type : COLOR_MAP_TYPE)
    (field : StyleField.t) (useCustomColorRamp : bool)
| lineColor_options (fieldMetaOptions : FieldMetaOptions.t)
| lineWidth_options (size : Z).

Module StyleProperty.
Record t : Type := mk {
  type : STYLE_TYPE;
  options : StyleOptions
}.
End StyleProperty.

Module StyleProperties.
Record t : Type := mk {
  icon : StyleProperty.t;
  fillColor : StyleProperty.t;
  lineColor : StyleProperty.t;
  lineWidth : StyleProperty.t
}.
End StyleProperties.

Module Style.
Record t : Type := mk {
  type : string;
  properties : StyleProperties.t;
  isTimeAware : bool
}.
End Style.

Module VectorLayerDescriptor.
Record t : Type := mk {
  id : HtmlId;
  label : I18n.t;
  joins : list Join.t;
  sourceDescriptor : SourceDescriptor.t;
  style : Style.t;
  visible : bool;
  type : string
}.
End VectorLayerDescriptor.

(** [htmlIdGenerator()()] *)
Definition htmlIdGenerator : JS HtmlId :=
  fun w =>
    (Normal (htmlId (idSupply w)),
     mkWorld (ObjectPrototype_count w) (function_count w) (S (idSupply w))).

(** The [__columns] literal. *)
Definition anomaly_columns : list Column.t :=
  [ Column.mk "entityValue" "string";
    Column.mk "count" "number";
    Column.mk "max_severity" "number" ].

(** The [style] literal. *)
Definition anomaly_style : Style.t :=
  Style.mk "VECTOR"
    (StyleProperties.mk
       (StyleProperty.mk STATIC (icon_options "marker"))
       (StyleProperty.mk DYNAMIC
          (fillColor_options "Blue to Red" "palette_0"
             (FieldMetaOptions.mk true (Some 3%Z)) ORDINAL
             (StyleField.mk "count" JOIN) false))
       (StyleProperty.mk DYNAMIC
          (lineColor_options (FieldMetaOptions.mk true None)))
       (StyleProperty.mk STATIC (lineWidth_options 1)))
    true.

(** The object literal returned by [getChoroplethAnomaliesLayer], given the
    values of its two calls. *)
Definition choropleth_layer (id : HtmlId) (rows : list AnomalyRow.t)
    (config : MLEMSTermJoinConfig.t) (visible : bool) : VectorLayerDescriptor.t :=
  VectorLayerDescriptor.mk
    id
    (I18n.translate "xpack.ml.explorer.anomaliesMap.anomaliesCount"
       "Anomalies count: {jobId}"
       [("jobId", MLEMSTermJoinConfig.jobId config)])
    [ Join.mk (MLEMSTermJoinConfig.field config)
        (TableSource.mk "anomaly_count" TABLE_SOURCE rows anomaly_columns
           "entityValue") ]
    (SourceDescriptor.mk "EMS_FILE" (MLEMSTermJoinConfig.layerId config))
    anomaly_style
    visible
    "VECTOR".

(** The properties of the literal are evaluated in order: the identifier is
    drawn before the rows are aggregated. *)
Definition getChoroplethAnomaliesLayer (anomalies : list AnomaliesTableRecord.t)
    (config : MLEMSTermJoinConfig.t) (visible : bool)
  : JS VectorLayerDescriptor.t :=
  (id <- htmlIdGenerator ;;
   rows <- getAnomalyRows anomalies (MLEMSTermJoinConfig.jobId config) ;;
   ret (choropleth_layer id rows config visible))%js.

(** The callback of [EMSSuggestions.reduce], with the captured [count]
    threaded next to [result]. *)
Definition layerList_step (anomalies : list AnomaliesTableRecord.t)
    (acc : list VectorLayerDescriptor.t * nat)
    (suggestion : option MLEMSTermJoinConfig.t)
  : JS (list VectorLayerDescriptor.t * nat) :=
  let '(result, count) := acc in
  match suggestion with
  | Some s =>
      let visible := Nat.eqb count 0 in
      (layer <- getChoroplethAnomaliesLayer anomalies s visible ;;
       ret (result ++ [layer], S count))%js
  | None => ret (result, count)
  end.

(** The [useMemo] callback computing [layerList]. *)
Definition layerList (EMSSuggestions : EMSSuggestionsState)
    (anomalies : list AnomaliesTableRecord.t)
  : JS (list VectorLayerDescriptor.t) :=
  match EMSSuggestions with
  | Some ((_ :: _) as suggestions) =>
      (acc <- for_each (layerList_step anomalies) suggestions ([], 0) ;;
       ret (fst acc))%js
  | _ => ret []
  end.

(** ** The component [AnomaliesMap] *)

(** The effect [getInitialEMSTermSuggestions]: the suggestions are requested
    only for a non-empty anomaly list; otherwise the state stays as it is. *)
Definition getInitialEMSTermSuggestions (mapsPlugin : option MapsPlugin)
    (anomalies : list AnomaliesTableRecord.t) (jobIds : list string)
    (EMSSuggestions : EMSSuggestionsState) : EMSSuggestionsState :=
  match anomalies with
  | [] => EMSSuggestions
  | _ :: _ => getEMSTermSuggestions mapsPlugin anomalies jobIds EMSSuggestions
  end.

(** What the component returns: the panel around the embedded map, with the
    layer list handed to [MlEmbeddedMapComponent]. *)
Inductive Element : Type :=
| EuiPanel (layerList : list VectorLayerDescriptor.t).

(** One rendering pass for the state [EMSSuggestions]: the memoised layer
    list is computed first, then [EMSSuggestions?.length === 0] decides
    between [null] ([None]) and the panel. *)
Definition AnomaliesMap (EMSSuggestions : EMSSuggestionsState)
    (anomalies : list AnomaliesTableRecord.t) : JS (option Element) :=
  (layers <- layerList EMSSuggestions anomalies ;;
   match EMSSuggestions with
   | Some [] => ret None
   | _ => ret (Some (EuiPanel layers))
   end)%js.

(** ** Registration of the saved-object types of the actions plugin *)

Definition ACTION_SAVED_OBJECT_TYPE : string := "action".
Definition ALERT_SAVED_OBJECT_TYPE : string := "alert".
Definition ACTION_TASK_PARAMS_SAVED_OBJECT_TYPE : string := "action_task_params".

(** What [index.ts] imports: the host's types, [mappings.json] and the
    functions of the sibling modules. *)
Class Imports : Type := {
  Mapping : Type;
  Migrations : Type;
  SavedObject : Type;
  SavedObjectsExportTransformContext : Type;
  ExportResult : Type;
  ImportWarnings : Type;
  EncryptedSavedObjectsPluginSetup : Type;
  ActionTypeRegistry : Type;
  mappings_action : Mapping;
  mappings_action_task_params : Mapping;
  getMigrations : EncryptedSavedObjectsPluginSetup -> Migrations;
  getImportWarnings : list SavedObject -> ImportWarnings;
  transformConnectorsForExport :
    list SavedObject -> ActionTypeRegistry -> ExportResult;
  attributes_name : SavedObject -> string
}.

Section SavedObjectsModel.
Context {imports : Imports}.

(** What [onImport] returns: [{ warnings }]. *)
Record ImportResult : Type := mkImportResult {
  warnings : ImportWarnings
}.

(** The [management] property of a saved-object type. *)
Record Management : Type := mkManagement {
  defaultSearchField : string;
  importableAndExportable : bool;
  getTitle : SavedObject -> string;
  onExport :
    SavedObjectsExportTransformContext -> list SavedObject -> ExportResult;
  onImport : list SavedObject -> ImportResult
}.

(** The argument of [savedObjects.registerType]; a property the literal
    leaves out is [None]. *)
Record SavedObjectsType : Type := mkSavedObjectsType {
  name : string;
  hidden : bool;
  namespaceType : string;
  mappings : Mapping;
  migrations : option Migrations;
  management : option Management
}.

(** The argument of [encryptedSavedObjects.registerType]; each [Set] is the
    list of its elements. *)
Record EncryptedSavedObjectTypeRegistration : Type := mkEncrypted {
  type : string;
  attributesToEncrypt : list string;
  attributesToExcludeFromAAD : option (list string)
}.

(** A call on one of the two services. *)
Inductive Call : Type :=
| savedObjects_registerType (t : SavedObjectsType)
| encryptedSavedObjects_registerType (r : EncryptedSavedObjectTypeRegistration).

(** The calls made so far, oldest first. *)
Definition Log : Type := list Call.

Definition call (c : Call) (log : Log) : Log := log ++ [c].

Definition action_management (actionTypeRegistry : ActionTypeRegistry)
  : Management :=
  mkManagement
    "name"
    true
    (fun obj => ("Connector: [" ++ attributes_name obj ++ "]")%string)
    (fun context objects =>
       transformConnectorsForExport objects actionTypeRegistry)
    (fun connectors => mkImportResult (getImportWarnings connectors)).

Definition setupSavedObjects
    (encryptedSavedObjects : EncryptedSavedObjectsPluginSetup)
    (actionTypeRegistry : ActionTypeRegistry) (log : Log) : Log :=
  let log :=
    call (savedObjects_registerType
            (mkSavedObjectsType ACTION_SAVED_OBJECT_TYPE true "single"
               mappings_action
               (Some (getMigrations encryptedSavedObjects))
               (Some (action_management actionTypeRegistry)))) log in
  let log :=
    call (encryptedSavedObjects_registerType
            (mkEncrypted ACTION_SAVED_OBJECT_TYPE ["secrets"]
               (Some ["name"]))) log in
  let log :=
    call (savedObjects_registerType
            (mkSavedObjectsType ACTION_TASK_PARAMS_SAVED_OBJECT_TYPE true
               "single" mappings_action_task_params None None)) log in
  call (encryptedSavedObjects_registerType
          (mkEncrypted ACTION_TASK_PARAMS_SAVED_OBJECT_TYPE ["apiKey"]
             None)) log.

(** The arguments of the calls on each service, in order. *)
Fixpoint savedObjects_calls (log : Log) : list SavedObjectsType :=
  match log with
  | [] => []
  | savedObjects_registerType t :: log' => t :: savedObjects_calls log'
  | encryptedSavedObjects_registerType _ :: log' => savedObjects_calls log'
  end.

Fixpoint encryptedSavedObjects_calls (log : Log)
  : list EncryptedSavedObjectTypeRegistration :=
  match log with
  | [] => []
  | savedObjects_registerType _ :: log' => encryptedSavedObjects_calls log'
  | encryptedSavedObjects_registerType r :: log' =>
      r :: encryptedSavedObjects_calls log'
  end.
End SavedObjectsModel.

(** ** Reference definitions for the statements *)

(** A record literal. *)
Definition anomaly (j : string) (n v : option string) (s : Q)
  : AnomaliesTableRecord.t :=
  AnomaliesTableRecord.mk j n v s.

(** The key a record is filed under, and the key a row stands for. *)
Definition key (a : AnomaliesTableRecord.t) : string :=
  ToPropertyKey (AnomaliesTableRecord.entityValue a).

Definition row_key (r : AnomalyRow.t) : string :=
  ToPropertyKey (AnomalyRow.entityValue r).

(** [k] names a property of [Object.prototype] in every world. *)
Definition ObjectPrototype_has (k : string) : bool :=
  existsb (String.eqb k) ObjectPrototype_functions || String.eqb k "__proto__".

(** [k] names a property every object inherits in world [w]. *)
Definition inherited (w : World) (k : string) : bool :=
  existsb (String.eqb k) ObjectPrototype_functions
  || String.eqb k "__proto__"
  || (String.eqb k "count" && ObjectPrototype_count w).

(** The records of job [j] whose entity value is filed under key [k]. *)
Definition group (j k : string) (anomalies : list AnomaliesTableRecord.t)
  : list AnomaliesTableRecord.t :=
  filter (fun a =>
            String.eqb (AnomaliesTableRecord.jobId a) j
            && String.eqb (key a) k)
         anomalies.

(** The greatest of [s] and the elements of [l]. *)
Definition maximum (s : Q) (l : list Q) : Q := fold_left Qmax l s.

(** The row a non-empty group should give: its size, the entity value of its
    first record, the floor of its greatest severity. *)
Definition summary (g : list AnomaliesTableRecord.t) : option AnomalyRow.t :=
  match g with
  | [] => None
  | a :: g' =>
      Some (AnomalyRow.mk
              (Z.of_nat (List.length g))
              (AnomaliesTableRecord.entityValue a)
              (Qfloor (maximum (AnomaliesTableRecord.severity a)
                         (map AnomaliesTableRecord.severity g'))))
  end.

(** The dictionary of the aggregation after the records [p]: a key of
    [Object.prototype] is never created, every other key holds the summary of
    its group. *)
Definition aggregated (j : string) (p : list AnomaliesTableRecord.t)
    (o : Props) : Prop :=
  NoDup (map fst o)
  /\ forall k,
       own k o = if ObjectPrototype_has k then None
                 else summary (group j k p).

(** A record of job [j] whose entity value and entity name are both defined
    and not the empty string. *)
Definition has_entity (j : string) (a : AnomaliesTableRecord.t) : bool :=
  String.eqb (AnomaliesTableRecord.jobId a) j
  && match AnomaliesTableRecord.entityValue a with
     | Some v => negb (String.eqb v "")
     | None => false
     end
  && match AnomaliesTableRecord.entityName a with
     | Some n => negb (String.eqb n "")
     | None => false
     end.

(** The entity values of the records the sampling loop accepts. *)
Definition sampled_values (jobId : string)
    (anomalies : list AnomaliesTableRecord.t) : list (option string) :=
  map AnomaliesTableRecord.entityValue (filter (sampled jobId) anomalies).

(** The elements of [l] absent from [seen], each once, in order of first
    occurrence. *)
Fixpoint distinct (seen l : list (option string)) : list (option string) :=
  match l with
  | [] => []
  | v :: l' =>
      if existsb (strict_eq v) seen then distinct seen l'
      else v :: distinct (seen ++ [v]) l'
  end.

(** The request for one job, for the loop alone. *)
Definition sample (jobId : string) (anomalies : list AnomaliesTableRecord.t)
  : list (option string) :=
  SampleValuesConfig.sampleValues (sampleValuesConfig anomalies jobId).

(** What one job leaves in the stored list: its suggestion tagged with the
    job, or nothing when the service answered [null]. *)
Definition kept (mapsPlugin : MapsPlugin)
    (anomalies : list AnomaliesTableRecord.t) (jobId : string)
  : list MLEMSTermJoinConfig.t :=
  match mapsPlugin (sampleValuesConfig anomalies jobId) with
  | Some suggestion =>
      [ MLEMSTermJoinConfig.mk jobId
          (EMSTermJoinConfig.layerId suggestion)
          (EMSTermJoinConfig.field suggestion) ]
  | None => []
  end.

(** The non-null entries of an array. *)
Fixpoint non_null {A : Type} (l : list (option A)) : list A :=
  match l with
  | [] => []
  | Some a :: l' => a :: non_null l'
  | None :: l' => non_null l'
  end.

(** The entries of the state, none when it is [undefined]. *)
Definition entries (EMSSuggestions : EMSSuggestionsState)
  : list (option MLEMSTermJoinConfig.t) :=
  match EMSSuggestions with
  | Some l => l
  | None => []
  end.

(** [layer] is the descriptor built for [suggestion]: the literal of
    [getChoroplethAnomaliesLayer] around the rows aggregated for the job of
    the suggestion. *)
Definition built_from (anomalies : list AnomaliesTableRecord.t)
    (layer : VectorLayerDescriptor.t) (suggestion : MLEMSTermJoinConfig.t)
  : Prop :=
  exists id rows w w',
    getAnomalyRows anomalies (MLEMSTermJoinConfig.jobId suggestion) w
    = (Normal rows, w')
    /\ layer = choropleth_layer id rows suggestion
                 (VectorLayerDescriptor.visible layer).

(** Small concrete imports, for closed examples. *)
#[local] Instance unit_imports : Imports := {|
  Mapping := bool;
  Migrations := unit;
  SavedObject := string;
  SavedObjectsExportTransformContext := unit;
  ExportResult := unit;
  ImportWarnings := unit;
  EncryptedSavedObjectsPluginSetup := unit;
  ActionTypeRegistry := unit;
  mappings_action := true;
  mappings_action_task_params := false;
  getMigrations := fun _ => tt;
  getImportWarnings := fun _ => tt;
  transformConnectorsForExport := fun _ _ => tt;
  attributes_name := fun obj => obj
|}.

(** A saved-object type that comes with migration hooks and with import and
    export hooks. *)
Definition has_hooks {imports : Imports} (t : SavedObjectsType) : bool :=
  match migrations t, management t with
  | Some _, Some _ => true
  | _, _ => false
  end.

(** [anomaly.jobId === jobId] *)
Definition of_job (j : string) (a : AnomaliesTableRecord.t) : bool :=
  String.eqb (AnomaliesTableRecord.jobId a) j.

(** A record of job [j] whose key can hold a row. *)
Definition counted (j : string) (a : AnomaliesTableRecord.t) : bool :=
  of_job j a && negb (ObjectPrototype_has (key a)).

(** The sum of the counts of the rows. *)
Definition total (rows : list AnomalyRow.t) : Z :=
  fold_right Z.add 0%Z (map AnomalyRow.count rows).

(** The array index a row is filed under, if its key is one. *)
Definition row_index (r : AnomalyRow.t) : option N := array_index (row_key r).

(** Both rows are filed under array indices, the first not above the
    second. *)
Definition index_le (r1 r2 : AnomalyRow.t) : Prop :=
  match row_index r1, row_index r2 with
  | Some n1, Some n2 => (n1 <= n2)%N
  | _, _ => False
  end.

(** The world after [htmlIdGenerator] was called once. *)
Definition drawn (w : World) : World :=
  mkWorld (ObjectPrototype_count w) (function_count w) (S (idSupply w)).

(** The entity name of the first record of job [jobId] that has an entity
    value and an entity name, the empty string when there is none. *)
Definition first_entity_name (jobId : string)
    (anomalies : list AnomaliesTableRecord.t) : string :=
  match find (has_entity jobId) anomalies with
  | Some a =>
      match AnomaliesTableRecord.entityName a with
      | Some n => n
      | None => ""
      end
  | None => ""
  end.

(** The request the suggestion service should receive for a job: the common
    layers, the first [MAX_ENTITY_VALUES] distinct entity values of the
    records of the job that have an entity value and an entity name, and
    the entity name of the first of these records. *)
Definition expected_request (anomalies : list AnomaliesTableRecord.t)
    (jobId : string) : SampleValuesConfig.t :=
  SampleValuesConfig.mk
    COMMON_EMS_LAYER_IDS
    (firstn MAX_ENTITY_VALUES
       (distinct []
          (map AnomaliesTableRecord.entityValue
             (filter (has_entity jobId) anomalies))))
    (first_entity_name jobId anomalies).

(** The answer of the service as the callback returns it: tagged with the
    job, or [null]. *)
Definition tag (jobId : string) (answer : option EMSTermJoinConfig.t)
  : option MLEMSTermJoinConfig.t :=
  match answer with
  | Some suggestion =>
      Some (MLEMSTermJoinConfig.mk jobId
              (EMSTermJoinConfig.layerId suggestion)
              (EMSTermJoinConfig.field suggestion))
  | None => None
  end.

(** * Properties *)

(** ** The [JS] monad *)

Lemma bind_Normal {A B : Type} (m : JS A) (k : A -> JS B) w b w' :
  bind m k w = (Normal b, w') <->
  exists a w1, m w = (Normal a, w1) /\ k a w1 = (Normal b, w').
Proof.
  unfold bind. split.
  - destruct (m w) as [[a | e] w1]; intros H; [eauto | discriminate].
  - intros (a & w1 & -> & H). exact H.
Qed.

Lemma bind_Throw {A B : Type} (m : JS A) (k : A -> JS B) w e w' :
  m w = (Throw e, w') -> bind m k w = (Throw e, w').
Proof. unfold bind. intros ->. reflexivity. Qed.

Lemma ret_Normal {A : Type} (a b : A) w w' :
  ret a w = (Normal b, w') <-> a = b /\ w = w'.
Proof.
  unfold ret. split.
  - intros H. injection H as -> ->. auto.
  - intros [-> ->]. reflexivity.
Qed.

(** Splits a normally completed computation into its steps. *)
Ltac js_inv :=
  repeat match goal with
    | H : bind _ _ _ = (Normal _, _) |- _ =>
        apply bind_Normal in H; destruct H as (? & ? & ? & H)
    | H : ret _ _ = (Normal _, _) |- _ =>
        apply ret_Normal in H; destruct H as [? ?]; subst
    end.

Lemma for_each_app {S A : Type} (body : S -> A -> JS S) l1 l2 s w :
  for_each body (l1 ++ l2) s w
  = bind (for_each body l1 s) (for_each body l2) w.
Proof.
  revert s w. induction l1 as [| a l1 IH]; intros s w; simpl.
  - reflexivity.
  - unfold bind. destruct (body s a w) as [[s' | e] w1]; [| reflexivity].
    rewrite IH. reflexivity.
Qed.

(** ** Dictionaries *)

Lemma own_In k o r : own k o = Some r -> In (k, r) o.
Proof.
  induction o as [| [k' r'] o IH]; simpl; [discriminate |].
  destruct (String.eqb_spec k k') as [-> | _].
  - intros E. injection E as ->. left. reflexivity.
  - intros E. right. apply IH. exact E.
Qed.

Lemma own_None k o : own k o = None <-> ~ In k (map fst o).
Proof.
  induction o as [| [k' r'] o IH]; simpl; [tauto |].
  destruct (String.eqb_spec k k') as [-> | NE].
  - split; [discriminate | intros H; exfalso; apply H; left; reflexivity].
  - rewrite IH. split; intros H; [intros [E | Hin]; [congruence | tauto] | tauto].
Qed.

Lemma In_own k r o : NoDup (map fst o) -> In (k, r) o -> own k o = Some r.
Proof.
  induction o as [| [k' r'] o IH]; simpl; intros ND Hin; [contradiction |].
  inversion ND as [| ? ? Hnot ND']; subst.
  destruct Hin as [E | Hin].
  - injection E as -> ->. rewrite String.eqb_refl. reflexivity.
  - destruct (String.eqb_spec k k') as [-> | _].
    + exfalso. apply Hnot. apply (in_map fst) in Hin. exact Hin.
    + apply IH; assumption.
Qed.

Lemma store_keys k r o : map fst (store k r o) = map fst o.
Proof.
  induction o as [| [k' r'] o IH]; simpl; [reflexivity |].
  destruct (String.eqb k k'); simpl; [| rewrite IH]; reflexivity.
Qed.

Lemma own_store k r o k' :
  own k' (store k r o)
  = if String.eqb k' k then match own k o with
                            | Some _ => Some r
                            | None => None
                            end
    else own k' o.
Proof.
  induction o as [| [k0 r0] o IH]; simpl.
  - destruct (String.eqb k' k); reflexivity.
  - destruct (String.eqb_spec k k0) as [-> | NE]; simpl.
    + destruct (String.eqb_spec k' k0); reflexivity.
    + rewrite IH. destruct (String.eqb_spec k' k0) as [-> | NE'].
      * destruct (String.eqb_spec k0 k); [congruence | reflexivity].
      * reflexivity.
Qed.

Lemma own_define k r o k' :
  own k' (define k r o)
  = match own k' o with
    | Some r' => Some r'
    | None => if String.eqb k' k then Some r else None
    end.
Proof.
  unfold define. induction o as [| [k0 r0] o IH]; simpl.
  - reflexivity.
  - destruct (String.eqb k' k0); [reflexivity | exact IH].
Qed.

(** *** [Object.values] lists every own value once *)

Lemma insert_by_index_perm n r l :
  Permutation (insert_by_index n r l) ((n, r) :: l).
Proof.
  induction l as [| [m r'] l IH]; simpl; [reflexivity |].
  destruct (n <=? m)%N; [reflexivity |].
  rewrite IH. apply perm_swap.
Qed.

Lemma Object_values_perm o : Permutation (Object_values o) (map snd o).
Proof.
  unfold Object_values. induction o as [| [k r] o IH]; simpl; [reflexivity |].
  destruct (array_index k) as [n |].
  - rewrite insert_by_index_perm. simpl. constructor. exact IH.
  - rewrite <- Permutation_middle. constructor. exact IH.
Qed.

(** The enumeration has the array indices in ascending order. *)
Lemma integer_keyed_sorted o :
  StronglySorted (fun x y => (fst x <= fst y)%N) (integer_keyed o).
Proof.
  assert (Hins : forall n r l,
             StronglySorted (fun x y => (fst x <= fst y)%N) l ->
             StronglySorted (fun x y => (fst x <= fst y)%N)
               (insert_by_index n r l)).
  { intros n r l. induction l as [| [m r'] l IH]; intros Hs; simpl.
    - constructor; constructor.
    - destruct (N.leb_spec n m) as [Hle | Hlt].
      + constructor; [exact Hs |]. inversion Hs as [| ? ? Hs' Hall]; subst.
        constructor; [exact Hle |].
        eapply Forall_impl; [| exact Hall]. simpl. intros; lia.
      + inversion Hs as [| ? ? Hs' Hall]; subst.
        constructor; [apply IH; exact Hs' |].
        eapply Permutation_Forall;
          [symmetry; apply insert_by_index_perm |].
        constructor; [simpl; lia | exact Hall]. }
  induction o as [| [k r] o IH]; simpl; [constructor |].
  destruct (array_index k); [apply Hins |]; exact IH.
Qed.

(** ** The aggregation loop *)

Lemma gt_spec x y : gt x y = true <-> (y < x)%Q.
Proof.
  unfold gt. rewrite negb_true_iff, <- not_true_iff_false, Qle_bool_iff.
  split; [apply Qnot_le_lt | apply Qlt_not_le].
Qed.

(** The update of [max_severity] keeps it the floor of the greatest
    severity. *)
Lemma floor_max (m s : Q) :
  Qfloor (Qmax m s)
  = if gt s (inject_Z (Qfloor m)) then Qfloor s else Qfloor m.
Proof.
  destruct (gt s (inject_Z (Qfloor m))) eqn:E.
  - apply gt_spec in E.
    assert (Hge : (Qfloor m <= Qfloor s)%Z).
    { rewrite <- (Qfloor_Z (Qfloor m)). apply Qfloor_resp_le, Qlt_le_weak, E. }
    destruct (Qlt_le_dec m s) as [Hlt | Hle].
    + apply Qfloor_comp, Q.max_r, Qlt_le_weak, Hlt.
    + rewrite (Qfloor_comp _ _ (Q.max_l _ _ Hle)).
      apply Z.le_antisymm; [exact Hge | apply Qfloor_resp_le, Hle].
  - apply not_true_iff_false in E. rewrite gt_spec in E.
    apply Qnot_lt_le in E.
    apply Qfloor_comp, Q.max_l.
    eapply Qle_trans; [exact E | apply Qfloor_le].
Qed.

Lemma maximum_snoc s l x : maximum s (l ++ [x]) = Qmax (maximum s l) x.
Proof. unfold maximum. rewrite fold_left_app. reflexivity. Qed.

Lemma group_snoc j k p a :
  group j k (p ++ [a])
  = group j k p
    ++ (if String.eqb (AnomaliesTableRecord.jobId a) j && String.eqb (key a) k
        then [a] else []).
Proof.
  unfold group, key. rewrite filter_app. simpl.
  destruct (_ && _); reflexivity.
Qed.

(** What one more record does to the summary of its group is what the loop
    body does to the row. *)
Lemma summary_snoc g a :
  summary (g ++ [a])
  = Some match summary g with
         | None =>
             AnomalyRow.mk 1 (AnomaliesTableRecord.entityValue a)
               (Qfloor (AnomaliesTableRecord.severity a))
         | Some r =>
             AnomalyRow.mk (AnomalyRow.count r + 1) (AnomalyRow.entityValue r)
               (if gt (AnomaliesTableRecord.severity a)
                      (inject_Z (AnomalyRow.max_severity r))
                then Qfloor (AnomaliesTableRecord.severity a)
                else AnomalyRow.max_severity r)
         end.
Proof.
  destruct g as [| b g]; [reflexivity |].
  cbn [summary app AnomalyRow.count AnomalyRow.entityValue
         AnomalyRow.max_severity].
  rewrite map_app. cbn [map]. rewrite maximum_snoc, floor_max.
  f_equal. f_equal. cbn [List.length]. rewrite length_app. cbn [List.length].
  lia.
Qed.

Lemma summary_head g r :
  summary g = Some r ->
  exists a, In a g
            /\ AnomaliesTableRecord.entityValue a = AnomalyRow.entityValue r.
Proof.
  destruct g as [| a g]; [discriminate |]. intros E. injection E as <-.
  exists a. split; [left |]; reflexivity.
Qed.

Lemma group_In j k l a :
  In a (group j k l) <->
  In a l /\ AnomaliesTableRecord.jobId a = j /\ key a = k.
Proof.
  unfold group, key. rewrite filter_In, andb_true_iff, !String.eqb_eq.
  reflexivity.
Qed.

Lemma summary_group_key j k l r :
  summary (group j k l) = Some r -> row_key r = k.
Proof.
  intros E. apply summary_head in E. destruct E as (a & Ha & Ev).
  apply group_In in Ha. destruct Ha as (_ & _ & <-).
  unfold row_key, key. rewrite Ev. reflexivity.
Qed.

Lemma aggregated_nil j : aggregated j [] [].
Proof.
  split; [constructor |]. intros k. simpl.
  destruct (ObjectPrototype_has k); reflexivity.
Qed.

(** One iteration keeps the dictionary aggregated. *)
Lemma getAnomalyRows_body_aggregated j p o a w o' w' :
  aggregated j p o ->
  getAnomalyRows_body j o a w = (Normal o', w') ->
  aggregated j (p ++ [a]) o'.
Proof.
  intros [ND Hown]. unfold getAnomalyRows_body. fold (key a).
  destruct (String.eqb (AnomaliesTableRecord.jobId a) j) eqn:Ej; simpl.
  - (* a record of the job *)
    unfold Get. pose proof (Hown (key a)) as Hk.
    unfold ObjectPrototype_has in Hk.
    destruct (own (key a) o) as [r |] eqn:Eo.
    + (* the key is there: [count] and [max_severity] are updated *)
      intros E. injection E as <- <-.
      destruct (existsb (String.eqb (key a)) ObjectPrototype_functions
                || String.eqb (key a) "__proto__") eqn:Eh; [discriminate |].
      split; [rewrite store_keys; exact ND |].
      intros k. rewrite own_store, group_snoc, Ej, Eo. simpl.
      rewrite (String.eqb_sym k).
      destruct (String.eqb_spec (key a) k) as [<- | NE].
      * unfold ObjectPrototype_has. rewrite Eh, summary_snoc, <- Hk.
        reflexivity.
      * rewrite app_nil_r. apply Hown.
    + destruct (existsb (String.eqb (key a)) ObjectPrototype_functions) eqn:Ef.
      { (* an inherited function *)
        intros E. injection E as <- <-. split; [exact ND |].
        intros k. rewrite group_snoc, Ej. simpl.
        destruct (String.eqb_spec (key a) k) as [<- | NE].
        - unfold ObjectPrototype_has. rewrite Ef. simpl.
          rewrite Eo. reflexivity.
        - rewrite app_nil_r. apply Hown. }
      destruct (String.eqb (key a) "__proto__") eqn:Ep.
      { (* [Object.prototype] itself *)
        intros E. injection E as <- <-. split; [exact ND |].
        intros k. rewrite group_snoc, Ej. simpl.
        destruct (String.eqb_spec (key a) k) as [<- | NE].
        - unfold ObjectPrototype_has. rewrite Ef, Ep. simpl.
          rewrite Eo. reflexivity.
        - rewrite app_nil_r. apply Hown. }
      destruct (String.eqb (key a) "count" && ObjectPrototype_count w);
        [discriminate |].
      (* a new key *)
      intros E. injection E as <- <-. simpl in Hk. split.
      * unfold define. rewrite map_app. simpl.
        apply NoDup_app_remove_r with (l' := []). rewrite app_nil_r.
        apply Permutation_NoDup with (l := key a :: map fst o).
        -- apply Permutation_cons_append.
        -- constructor; [apply own_None; exact Eo | exact ND].
      * intros k. rewrite own_define, group_snoc, Ej. simpl.
        rewrite (String.eqb_sym k).
        destruct (String.eqb_spec (key a) k) as [<- | NE].
        -- unfold ObjectPrototype_has. rewrite Eo, Ef, Ep. simpl.
           rewrite summary_snoc, <- Hk. reflexivity.
        -- rewrite app_nil_r. rewrite <- Hown.
           destruct (own k o); reflexivity.
  - (* a record of another job: [continue] *)
    intros E. injection E as <- <-. split; [exact ND |].
    intros k. rewrite group_snoc, Ej. simpl. rewrite app_nil_r. apply Hown.
Qed.

Lemma getAnomalyRows_loop_aggregated j l :
  forall p o w o' w',
    aggregated j p o ->
    for_each (getAnomalyRows_body j) l o w = (Normal o', w') ->
    aggregated j (p ++ l) o'.
Proof.
  induction l as [| a l IH]; intros p o w o' w' Hagg H; simpl in H.
  - apply ret_Normal in H. destruct H as [<- _]. rewrite app_nil_r. exact Hagg.
  - apply bind_Normal in H. destruct H as (o1 & w1 & Hbody & Hrest).
    change (a :: l) with ([a] ++ l). rewrite app_assoc.
    eapply IH; [| exact Hrest].
    eapply getAnomalyRows_body_aggregated; eassumption.
Qed.

(** ** The rows of the aggregation *)

Lemma getAnomalyRows_Normal anomalies j w rows w' :
  getAnomalyRows anomalies j w = (Normal rows, w') ->
  exists o, aggregated j anomalies o /\ rows = Object_values o.
Proof.
  unfold getAnomalyRows. intros H.
  apply bind_Normal in H. destruct H as (o & w1 & Hloop & Hret).
  apply ret_Normal in Hret. destruct Hret as [<- _].
  exists o. split; [| reflexivity].
  apply (getAnomalyRows_loop_aggregated j anomalies [] [] w o w1);
    [apply aggregated_nil | exact Hloop].
Qed.

Lemma aggregated_entry j l o k r :
  aggregated j l o -> In (k, r) o ->
  ObjectPrototype_has k = false
  /\ summary (group j k l) = Some r
  /\ row_key r = k.
Proof.
  intros [ND Hown] Hin. apply (In_own _ _ _ ND) in Hin.
  rewrite Hown in Hin. destruct (ObjectPrototype_has k); [discriminate |].
  repeat split; [exact Hin |]. eapply summary_group_key. exact Hin.
Qed.

Lemma aggregated_keys j l o :
  aggregated j l o -> map row_key (map snd o) = map fst o.
Proof.
  intros Hagg. rewrite map_map. apply map_ext_in. intros [k r] Hin.
  apply (aggregated_entry _ _ _ _ _ Hagg Hin).
Qed.

(** Whenever the aggregation returns, its rows partition by property key the
    records of the job whose key is not a property of [Object.prototype]:
    one row for each key, holding the size of the group, the entity value of
    its first record and the floor of its greatest severity. *)
Theorem getAnomalyRows_partition anomalies j w rows w' :
  getAnomalyRows anomalies j w = (Normal rows, w') ->
  NoDup (map row_key rows)
  /\ (forall r,
         In r rows ->
         ObjectPrototype_has (row_key r) = false
         /\ summary (group j (row_key r) anomalies) = Some r)
  /\ (forall a,
         In a anomalies ->
         AnomaliesTableRecord.jobId a = j ->
         ObjectPrototype_has (key a) = false ->
         exists r, In r rows /\ row_key r = key a).
Proof.
  intros H. apply getAnomalyRows_Normal in H.
  destruct H as (o & Hagg & ->).
  pose proof (Object_values_perm o) as Hperm.
  split; [| split].
  - apply Permutation_NoDup with (l := map row_key (map snd o)).
    + apply Permutation_map. symmetry. exact Hperm.
    + rewrite (aggregated_keys _ _ _ Hagg). apply Hagg.
  - intros r Hr. apply (Permutation_in _ Hperm) in Hr.
    apply in_map_iff in Hr. destruct Hr as ([k r'] & <- & Hin).
    destruct (aggregated_entry _ _ _ _ _ Hagg Hin) as (Hhas & Hsum & Hkey).
    simpl. rewrite Hkey. auto.
  - intros a Hin Hj Hhas.
    destruct Hagg as [ND Hown]. pose proof (Hown (key a)) as Hk.
    rewrite Hhas in Hk.
    assert (Hg : In a (group j (key a) anomalies))
      by (apply group_In; auto).
    destruct (group j (key a) anomalies) as [| b g] eqn:Eg; [contradiction |].
    simpl in Hk. apply own_In in Hk.
    eexists. split.
    + apply (Permutation_in _ (Permutation_sym Hperm)).
      apply in_map_iff. eexists (_, _). split; [reflexivity | exact Hk].
    + unfold row_key. simpl.
      assert (Hb : In b (group j (key a) anomalies))
        by (rewrite Eg; left; reflexivity).
      apply group_In in Hb. apply Hb.
Qed.

Lemma inherited_ObjectPrototype_has w k :
  inherited w k = false -> ObjectPrototype_has k = false.
Proof.
  unfold inherited, ObjectPrototype_has. intros H.
  apply orb_false_iff in H. apply H.
Qed.

(** An iteration on a record of another job, or on a key that is not
    inherited, completes and leaves the world as it was. *)
Lemma getAnomalyRows_body_returns j o a w :
  (AnomaliesTableRecord.jobId a = j -> inherited w (key a) = false) ->
  exists o', getAnomalyRows_body j o a w = (Normal o', w).
Proof.
  intros H. unfold getAnomalyRows_body. fold (key a).
  destruct (String.eqb_spec (AnomaliesTableRecord.jobId a) j) as [Ej | NE];
    simpl; [| eexists; reflexivity].
  specialize (H Ej). unfold inherited in H.
  apply orb_false_iff in H. destruct H as [H Hc].
  apply orb_false_iff in H. destruct H as [Hf Hp].
  unfold Get. rewrite Hf, Hp, Hc.
  destruct (own (key a) o); eexists; reflexivity.
Qed.

Lemma getAnomalyRows_returns anomalies j w :
  (forall a, In a anomalies -> AnomaliesTableRecord.jobId a = j ->
             inherited w (key a) = false) ->
  exists rows, getAnomalyRows anomalies j w = (Normal rows, w).
Proof.
  intros H. unfold getAnomalyRows.
  assert (G : forall o, exists o',
               for_each (getAnomalyRows_body j) anomalies o w = (Normal o', w)).
  { induction anomalies as [| a l IH]; intros o; simpl.
    - eexists. reflexivity.
    - destruct (getAnomalyRows_body_returns j o a w) as [o1 E1].
      { apply H. left. reflexivity. }
      destruct (IH (fun b Hb => H b (or_intror Hb)) o1) as [o2 E2].
      exists o2. unfold bind. rewrite E1. exact E2. }
  destruct (G []) as [o E]. eexists. unfold bind, ret. rewrite E. reflexivity.
Qed.

(** The partition the specification describes, for lists in which no record
    of the job is filed under an inherited key: the aggregation returns,
    touches nothing outside, and gives exactly one row for each key, with the
    size of its group and the floor of its greatest severity. *)
Theorem getAnomalyRows_partition_total anomalies j w :
  (forall a, In a anomalies -> AnomaliesTableRecord.jobId a = j ->
             inherited w (key a) = false) ->
  exists rows,
    getAnomalyRows anomalies j w = (Normal rows, w)
    /\ NoDup (map row_key rows)
    /\ (forall r, In r rows ->
                  summary (group j (row_key r) anomalies) = Some r)
    /\ (forall a, In a anomalies -> AnomaliesTableRecord.jobId a = j ->
                  exists r, In r rows /\ row_key r = key a).
Proof.
  intros H. destruct (getAnomalyRows_returns anomalies j w H) as [rows E].
  exists rows. split; [exact E |].
  destruct (getAnomalyRows_partition _ _ _ _ _ E) as (ND & Hrows & Hrec).
  split; [exact ND |]. split.
  - intros r Hr. apply Hrows. exact Hr.
  - intros a Hin Hj. apply Hrec; [exact Hin | exact Hj |].
    eapply inherited_ObjectPrototype_has. apply H; assumption.
Qed.

Lemma summary_count g r :
  summary g = Some r -> AnomalyRow.count r = Z.of_nat (List.length g).
Proof.
  destruct g as [| a g]; [discriminate |]. intros E. injection E as <-.
  reflexivity.
Qed.

(** The records filed under the key of the empty string are those whose
    entity value is the empty string; the records filed under the key
    "undefined" are those whose entity value is undefined or the string
    "undefined". *)
Lemma group_empty_string j l :
  group j "" l
  = filter (fun b =>
              of_job j b
              && strict_eq (AnomaliesTableRecord.entityValue b) (Some ""))
           l.
Proof.
  unfold group, of_job, key. apply filter_ext. intros b.
  destruct (AnomaliesTableRecord.entityValue b); reflexivity.
Qed.

Lemma group_undefined j l :
  group j "undefined" l
  = filter (fun b =>
              of_job j b
              && (strict_eq (AnomaliesTableRecord.entityValue b) None
                  || strict_eq (AnomaliesTableRecord.entityValue b)
                       (Some "undefined")))
           l.
Proof.
  unfold group, of_job, key. apply filter_ext. intros b.
  destruct (AnomaliesTableRecord.entityValue b); reflexivity.
Qed.

(** C3, as the code has it.  The aggregation makes no test on the entity
    value.  Whenever it returns: the entity value of every row is the entity
    value of a record of the job; every record of the job whose entity value
    is not a property name of [Object.prototype] is counted in the row of
    its key, whose count is the number of records of the job filed under that
    key; so a record of the job whose entity value is the empty string gives
    a row whose entity value is the empty string and whose count is the
    number of records of the job with the empty string as entity value, and a
    record of the job whose entity value is undefined is counted in the row
    of key "undefined", whose count is the number of records of the job
    whose entity value is undefined or the string "undefined". *)
Theorem getAnomalyRows_no_entityValue_filter anomalies j w rows w' :
  getAnomalyRows anomalies j w = (Normal rows, w') ->
  (forall r, In r rows ->
             exists a, In a anomalies
                       /\ AnomaliesTableRecord.jobId a = j
                       /\ AnomaliesTableRecord.entityValue a
                          = AnomalyRow.entityValue r)
  /\ (forall a, In a anomalies ->
                AnomaliesTableRecord.jobId a = j ->
                ObjectPrototype_has (key a) = false ->
                exists r,
                  In r rows
                  /\ row_key r = key a
                  /\ AnomalyRow.count r
                     = Z.of_nat (List.length (group j (key a) anomalies)))
  /\ (forall a, In a anomalies ->
                AnomaliesTableRecord.jobId a = j ->
                AnomaliesTableRecord.entityValue a = Some "" ->
                exists r,
                  In r rows
                  /\ AnomalyRow.entityValue r = Some ""
                  /\ AnomalyRow.count r
                     = Z.of_nat
                         (List.length
                            (filter
                               (fun b =>
                                  of_job j b
                                  && strict_eq
                                       (AnomaliesTableRecord.entityValue b)
                                       (Some ""))
                               anomalies)))
  /\ (forall a, In a anomalies ->
                AnomaliesTableRecord.jobId a = j ->
                AnomaliesTableRecord.entityValue a = None ->
                exists r,
                  In r rows
                  /\ row_key r = "undefined"
                  /\ AnomalyRow.count r
                     = Z.of_nat
                         (List.length
                            (filter
                               (fun b =>
                                  of_job j b
                                  && (strict_eq
                                        (AnomaliesTableRecord.entityValue b)
                                        None
                                      || strict_eq
                                           (AnomaliesTableRecord.entityValue b)
                                           (Some "undefined")))
                               anomalies))).
Proof.
  intros H.
  destruct (getAnomalyRows_partition _ _ _ _ _ H) as (_ & Hrows & Hrec).
  assert (Hcounted :
            forall a, In a anomalies ->
                      AnomaliesTableRecord.jobId a = j ->
                      ObjectPrototype_has (key a) = false ->
                      exists r,
                        In r rows
                        /\ row_key r = key a
                        /\ AnomalyRow.count r
                           = Z.of_nat
                               (List.length (group j (key a) anomalies))).
  { intros a Hin Hj Hhas. destruct (Hrec a Hin Hj Hhas) as (r & Hr & Hkey).
    exists r. split; [exact Hr |]. split; [exact Hkey |].
    destruct (Hrows r Hr) as [_ Hsum]. rewrite Hkey in Hsum.
    apply summary_count. exact Hsum. }
  split; [| split; [exact Hcounted | split]].
  - intros r Hr. destruct (Hrows r Hr) as [_ Hsum].
    apply summary_head in Hsum. destruct Hsum as (a & Ha & Ev).
    apply group_In in Ha. exists a. tauto.
  - intros a Hin Hj Ev.
    destruct (Hcounted a Hin Hj) as (r & Hr & Hkey & Hcount).
    { unfold key. rewrite Ev. reflexivity. }
    unfold key in Hkey, Hcount. rewrite Ev in Hkey, Hcount.
    cbn [ToPropertyKey] in Hkey, Hcount.
    exists r. split; [exact Hr |]. split.
    + unfold row_key in Hkey.
      destruct (AnomalyRow.entityValue r) as [v |]; simpl in Hkey;
        [congruence | discriminate].
    + rewrite <- group_empty_string. exact Hcount.
  - intros a Hin Hj Ev.
    destruct (Hcounted a Hin Hj) as (r & Hr & Hkey & Hcount).
    { unfold key. rewrite Ev. reflexivity. }
    unfold key in Hkey, Hcount. rewrite Ev in Hkey, Hcount.
    cbn [ToPropertyKey] in Hkey, Hcount.
    exists r. split; [exact Hr |]. split; [exact Hkey |].
    rewrite <- group_undefined. exact Hcount.
Qed.

Lemma getAnomalyRows_no_entityValue_filter_witness :
  let anomalies :=
    [ anomaly "j1" (Some "country") (Some "") (427 # 10);
      anomaly "j2" (Some "country") (Some "FR") (999 # 10);
      anomaly "j1" None None (3 # 2);
      anomaly "j1" (Some "country") (Some "undefined") (1 # 2);
      anomaly "j1" (Some "country") (Some "") (1 # 1) ] in
  let rows := [AnomalyRow.mk 2 (Some "") 42; AnomalyRow.mk 2 None 1] in
  (exists r, In r rows /\ AnomalyRow.entityValue r = Some ""
             /\ AnomalyRow.count r = 2%Z)
  /\ (exists r, In r rows /\ row_key r = "undefined"
                /\ AnomalyRow.count r = 2%Z).
Proof.
  intros anomalies rows.
  destruct (getAnomalyRows_no_entityValue_filter anomalies "j1" pristine
              rows pristine) as (_ & _ & Hempty & Hundefined).
  - vm_compute. reflexivity.
  - split.
    + apply (Hempty (anomaly "j1" (Some "country") (Some "") (427 # 10)));
        [left; reflexivity | reflexivity | reflexivity].
    + apply (Hundefined (anomaly "j1" None None (3 # 2)));
        [right; right; left; reflexivity | reflexivity | reflexivity].
Defined.

(** C3, as worded: no row with an empty or undefined entity value.  The
    records (j1, "") and (j1, undefined) each give a row. *)
Lemma getAnomalyRows_keeps_empty_entity :
  getAnomalyRows
    [ anomaly "j1" (Some "country") (Some "") (427 # 10);
      anomaly "j1" None None (3 # 2) ]
    "j1" pristine
  = (Normal [AnomalyRow.mk 1 (Some "") 42; AnomalyRow.mk 1 None 1], pristine)
  /\ ~ (forall rows w',
           getAnomalyRows
             [ anomaly "j1" (Some "country") (Some "") (427 # 10);
               anomaly "j1" None None (3 # 2) ]
             "j1" pristine = (Normal rows, w') ->
           forall r, In r rows ->
                     AnomalyRow.entityValue r <> Some ""
                     /\ AnomalyRow.entityValue r <> None).
Proof.
  split; [vm_compute; reflexivity |].
  intros H.
  destruct (H [AnomalyRow.mk 1 (Some "") 42; AnomalyRow.mk 1 None 1] pristine)
    with (r := AnomalyRow.mk 1 (Some "") 42) as [Hne _].
  - vm_compute. reflexivity.
  - left. reflexivity.
  - apply Hne. reflexivity.
Qed.

(** ** The aggregation on concrete inputs *)

(** The example of the specification: two records of "j1" for "US" and one of
    "j2" give the single row (US, 2, 42). *)
Example getAnomalyRows_spec_example :
  getAnomalyRows
    [ anomaly "j1" (Some "country") (Some "US") (427 # 10);
      anomaly "j1" (Some "country") (Some "US") (101 # 10);
      anomaly "j2" (Some "country") (Some "FR") (999 # 10) ]
    "j1" pristine
  = (Normal [AnomalyRow.mk 2 (Some "US") 42], pristine).
Proof. vm_compute. reflexivity. Qed.

(** Rows come out with the array-index keys first, in numeric order. *)
Example getAnomalyRows_zip_codes :
  fst (getAnomalyRows
         [ anomaly "j1" None (Some "90210") (1 # 1);
           anomaly "j1" None (Some "zz") (1 # 1);
           anomaly "j1" None (Some "10001") (1 # 1);
           anomaly "j1" None (Some "010") (1 # 1) ]
         "j1" pristine)
  = Normal [ AnomalyRow.mk 1 (Some "10001") 1;
             AnomalyRow.mk 1 (Some "90210") 1;
             AnomalyRow.mk 1 (Some "zz") 1;
             AnomalyRow.mk 1 (Some "010") 1 ].
Proof. vm_compute. reflexivity. Qed.

(** A record without entity value and a record whose entity value is the
    string "undefined" share the key "undefined", hence one row. *)
Example getAnomalyRows_undefined_key_shared :
  getAnomalyRows
    [ anomaly "j1" None None (3 # 2);
      anomaly "j1" (Some "field") (Some "undefined") (5 # 2) ]
    "j1" pristine
  = (Normal [AnomalyRow.mk 2 None 2], pristine).
Proof. vm_compute. reflexivity. Qed.

(** C1. The specification has every record of the job contribute to exactly
    one row.  A record whose entity value names a property of
    [Object.prototype] contributes to none: for the single record
    (j1, "constructor", 5) the aggregation returns no row at all (and leaves
    a [count] on the function [Object]), where the partition by entity value
    has the row ("constructor", 1, 5). *)
Theorem getAnomalyRows_inherited_key_dropped :
  getAnomalyRows [ anomaly "j1" (Some "country") (Some "constructor") (5 # 1) ]
    "j1" pristine
  = (Normal [], mkWorld false ["constructor"] 0)
  /\ summary (group "j1" "constructor"
                [ anomaly "j1" (Some "country") (Some "constructor") (5 # 1) ])
     = Some (AnomalyRow.mk 1 (Some "constructor") 5).
Proof. split; vm_compute; reflexivity. Qed.

(** ** Where the aggregation is a function of its arguments *)

Lemma getAnomalyRows_body_pure j o a :
  (AnomaliesTableRecord.jobId a = j ->
   key a <> "__proto__" /\ key a <> "count") ->
  exists o',
    forall w,
      fst (getAnomalyRows_body j o a w) = Normal o'
      /\ ObjectPrototype_count (snd (getAnomalyRows_body j o a w))
         = ObjectPrototype_count w.
Proof.
  intros H. unfold getAnomalyRows_body. fold (key a).
  destruct (String.eqb_spec (AnomaliesTableRecord.jobId a) j) as [Ej | NE];
    simpl; [| eexists; split; reflexivity].
  destruct (H Ej) as [Hp Hc]. unfold Get.
  apply String.eqb_neq in Hp, Hc. rewrite Hp, Hc. cbn [andb].
  destruct (own (key a) o);
    [| destruct (existsb (String.eqb (key a)) ObjectPrototype_functions)];
    eexists; split; reflexivity.
Qed.

(** For lists in which no record of the job has the entity value "__proto__"
    or "count", the aggregation always returns, its rows do not depend on
    the world it runs in, and it does not write [Object.prototype]. *)
Theorem getAnomalyRows_pure anomalies j :
  (forall a, In a anomalies -> AnomaliesTableRecord.jobId a = j ->
             key a <> "__proto__" /\ key a <> "count") ->
  exists rows,
    forall w,
      fst (getAnomalyRows anomalies j w) = Normal rows
      /\ ObjectPrototype_count (snd (getAnomalyRows anomalies j w))
         = ObjectPrototype_count w.
Proof.
  intros H. unfold getAnomalyRows.
  assert (G : forall o, exists o',
               forall w,
                 fst (for_each (getAnomalyRows_body j) anomalies o w)
                 = Normal o'
                 /\ ObjectPrototype_count
                      (snd (for_each (getAnomalyRows_body j) anomalies o w))
                    = ObjectPrototype_count w).
  { induction anomalies as [| a l IH]; intros o; simpl.
    - eexists. split; reflexivity.
    - destruct (getAnomalyRows_body_pure j o a) as [o1 E1].
      { apply H. left. reflexivity. }
      destruct (IH (fun b Hb => H b (or_intror Hb)) o1) as [o2 E2].
      exists o2. intros w. unfold bind.
      destruct (E1 w) as [E1a E1b].
      destruct (getAnomalyRows_body j o a w) as [c w1]. simpl in E1a, E1b.
      subst c. destruct (E2 w1) as [E2a E2b].
      split; [exact E2a | congruence]. }
  destruct (G []) as [o E]. eexists. intros w. destruct (E w) as [Ea Eb].
  unfold bind, ret.
  destruct (for_each (getAnomalyRows_body j) anomalies [] w) as [c w1].
  simpl in Ea, Eb. subst c. split; [reflexivity | exact Eb].
Qed.

(** C7. The specification calls the aggregation a pure function without
    state.  Two runs on equal inputs: the first, on a freshly loaded page,
    returns the row of "count" and leaves [Object.prototype] with a [count]
    property; the second, on the same list and job, throws. *)
Theorem getAnomalyRows_second_run_differs :
  let anomalies :=
    [ anomaly "j1" (Some "field") (Some "count") (1 # 1);
      anomaly "j1" (Some "field") (Some "__proto__") (1 # 1) ] in
  let first := getAnomalyRows anomalies "j1" pristine in
  let second := getAnomalyRows anomalies "j1" (snd first) in
  fst first = Normal [AnomalyRow.mk 1 (Some "count") 1]
  /\ snd first <> pristine
  /\ fst second = Throw TypeError.
Proof. vm_compute. repeat split; [discriminate]. Qed.

(** ** The layer descriptor *)

(** The layer builder completes exactly when the aggregation does, with the
    literal around the aggregated rows and the next identifier. *)
Lemma getChoroplethAnomaliesLayer_Normal anomalies config visible w layer w' :
  getChoroplethAnomaliesLayer anomalies config visible w = (Normal layer, w')
  <-> exists rows,
      getAnomalyRows anomalies (MLEMSTermJoinConfig.jobId config)
        (mkWorld (ObjectPrototype_count w) (function_count w) (S (idSupply w)))
      = (Normal rows, w')
      /\ layer = choropleth_layer (htmlId (idSupply w)) rows config visible.
Proof.
  unfold getChoroplethAnomaliesLayer. split.
  - intros H. js_inv. unfold htmlIdGenerator in *.
    match goal with E : (_, _) = (_, _) |- _ => injection E as <- <- end.
    eauto.
  - intros (rows & H & ->). apply bind_Normal.
    eexists _, _. split; [reflexivity |].
    apply bind_Normal. eexists _, _. split; [exact H | reflexivity].
Qed.

(** What the literal of [getChoroplethAnomaliesLayer] holds: one join, from
    the configured field to the term "entityValue" of a table of the three
    columns and the given rows; the configured layer as source; the fixed
    style. *)
Lemma choropleth_layer_fields id rows config visible :
  let layer := choropleth_layer id rows config visible in
  VectorLayerDescriptor.joins layer
  = [ Join.mk (MLEMSTermJoinConfig.field config)
        (TableSource.mk "anomaly_count" TABLE_SOURCE rows
           [ Column.mk "entityValue" "string";
             Column.mk "count" "number";
             Column.mk "max_severity" "number" ]
           "entityValue") ]
  /\ VectorLayerDescriptor.sourceDescriptor layer
     = SourceDescriptor.mk "EMS_FILE" (MLEMSTermJoinConfig.layerId config)
  /\ VectorLayerDescriptor.style layer = anomaly_style
  /\ VectorLayerDescriptor.visible layer = visible.
Proof. repeat split. Qed.

(** For lists in which no record of the job is filed under an inherited key,
    the layer builder returns the literal around the aggregated rows. *)
Theorem getChoroplethAnomaliesLayer_returns anomalies config visible w :
  (forall a, In a anomalies ->
             AnomaliesTableRecord.jobId a = MLEMSTermJoinConfig.jobId config ->
             inherited w (key a) = false) ->
  let w' :=
    mkWorld (ObjectPrototype_count w) (function_count w) (S (idSupply w)) in
  exists rows,
    getAnomalyRows anomalies (MLEMSTermJoinConfig.jobId config) w'
    = (Normal rows, w')
    /\ getChoroplethAnomaliesLayer anomalies config visible w
       = (Normal (choropleth_layer (htmlId (idSupply w)) rows config visible),
          w').
Proof.
  intros H w'.
  destruct (getAnomalyRows_returns anomalies
              (MLEMSTermJoinConfig.jobId config) w') as [rows E].
  { intros a Hin Hj. exact (H a Hin Hj). }
  exists rows. split; [exact E |].
  apply getChoroplethAnomaliesLayer_Normal. exists rows. split; [exact E |].
  reflexivity.
Qed.

(** C4. The specification has the layer builder return a layer for every
    list of records.  On a freshly loaded page, for the records
    (j1, "__proto__") and (j1, "count"), it throws and returns no layer:
    the aggregation it calls stores [count] on [Object.prototype] at the first
    record and then reads it back, as NaN, at the second. *)
Theorem getChoroplethAnomaliesLayer_throws :
  fst (getChoroplethAnomaliesLayer
         [ anomaly "j1" (Some "field") (Some "__proto__") (1 # 1);
           anomaly "j1" (Some "field") (Some "count") (1 # 1) ]
         (MLEMSTermJoinConfig.mk "j1" "world_countries" "iso2") true pristine)
  = Throw TypeError.
Proof. vm_compute. reflexivity. Qed.

(** ** The sampling loop *)

Lemma strict_eq_eq a b : strict_eq a b = true <-> a = b.
Proof.
  destruct a as [x |], b as [y |]; simpl; split; intros H;
    try discriminate; try reflexivity.
  - apply String.eqb_eq in H. congruence.
  - injection H as ->. apply String.eqb_refl.
Qed.

Lemma existsb_strict_eq v s : existsb (strict_eq v) s = true <-> In v s.
Proof.
  rewrite existsb_exists. split.
  - intros (x & Hx & E). apply strict_eq_eq in E. subst. exact Hx.
  - intros H. exists v. split; [exact H | apply strict_eq_eq; reflexivity].
Qed.

(** The guard of the loop, read as one test on the record. *)
Lemma sampled_has_entity j a : sampled j a = has_entity j a.
Proof.
  unfold sampled, has_entity. rewrite (String.eqb_sym j).
  destruct (AnomaliesTableRecord.jobId a =? j)%string; simpl; [| reflexivity].
  destruct (AnomaliesTableRecord.entityValue a) as [v |]; simpl;
    [| reflexivity].
  rewrite andb_true_r.
  destruct (v =? "")%string; simpl; [reflexivity |].
  destruct (AnomaliesTableRecord.entityName a) as [n |]; simpl;
    [| reflexivity].
  rewrite andb_true_r. reflexivity.
Qed.

Lemma sampled_ToBoolean j a :
  sampled j a = true -> ToBoolean (AnomaliesTableRecord.entityName a) = true.
Proof.
  rewrite sampled_has_entity. unfold has_entity, ToBoolean.
  destruct (AnomaliesTableRecord.entityName a); intros H;
    apply andb_prop in H; tauto.
Qed.

Lemma Set_add_length v s :
  List.length (Set_add v s) = List.length s
  \/ List.length (Set_add v s) = S (List.length s).
Proof.
  unfold Set_add. destruct (existsb (strict_eq v) s); [left; reflexivity |].
  right. rewrite length_app. simpl. lia.
Qed.

(** The set after the loop: what it held, then the new values in order of
    first occurrence, cut at [MAX_ENTITY_VALUES]. *)
Lemma sample_loop_values j l :
  forall acc name,
    List.length acc < MAX_ENTITY_VALUES ->
    fst (sample_loop j l acc name)
    = firstn MAX_ENTITY_VALUES (acc ++ distinct acc (sampled_values j l)).
Proof.
  induction l as [| a l IH]; intros acc name Hlen.
  - cbn -[firstn MAX_ENTITY_VALUES]. rewrite app_nil_r. symmetry.
    apply firstn_all2. lia.
  - unfold sampled_values in *. cbn -[firstn MAX_ENTITY_VALUES].
    destruct (sampled j a) eqn:Ea; cbn -[firstn MAX_ENTITY_VALUES].
    + unfold Set_add.
      destruct (existsb (strict_eq (AnomaliesTableRecord.entityValue a)) acc)
        eqn:Ein.
      * destruct (Nat.eqb_spec (List.length acc) MAX_ENTITY_VALUES)
          as [E | _]; [lia |].
        apply IH. exact Hlen.
      * destruct (Nat.eqb_spec
                    (List.length (acc ++ [AnomaliesTableRecord.entityValue a]))
                    MAX_ENTITY_VALUES) as [E | NE].
        -- cbn -[firstn MAX_ENTITY_VALUES].
           set (t := distinct _ _).
           replace (acc ++ AnomaliesTableRecord.entityValue a :: t)
             with ((acc ++ [AnomaliesTableRecord.entityValue a]) ++ t)
             by (rewrite <- app_assoc; reflexivity).
           rewrite firstn_app, E, Nat.sub_diag, firstn_O, app_nil_r.
           symmetry. apply firstn_all2. lia.
        -- rewrite IH.
           ++ rewrite <- app_assoc. reflexivity.
           ++ rewrite length_app in *. simpl in *. lia.
    + destruct (Nat.eqb_spec (List.length acc) MAX_ENTITY_VALUES)
        as [E | _]; [lia |].
      apply IH. exact Hlen.
Qed.

(** The variable [entityName] after the loop. *)
Lemma sample_loop_name j l :
  forall acc name,
    List.length acc < MAX_ENTITY_VALUES ->
    snd (sample_loop j l acc name)
    = if ToBoolean name then name
      else match find (sampled j) l with
           | Some a => AnomaliesTableRecord.entityName a
           | None => name
           end.
Proof.
  induction l as [| a l IH]; intros acc name Hlen.
  - simpl. destruct (ToBoolean name); reflexivity.
  - cbn -[MAX_ENTITY_VALUES].
    destruct (sampled j a) eqn:Ea; cbn -[MAX_ENTITY_VALUES].
    + pose proof (Set_add_length (AnomaliesTableRecord.entityValue a) acc)
        as Hadd.
      pose proof (sampled_ToBoolean _ _ Ea) as Hname.
      destruct (Nat.eqb_spec
                  (List.length (Set_add (AnomaliesTableRecord.entityValue a) acc))
                  MAX_ENTITY_VALUES) as [E | NE]; cbn -[MAX_ENTITY_VALUES].
      * destruct (ToBoolean name); reflexivity.
      * rewrite IH by lia.
        destruct (ToBoolean name) eqn:En; cbn -[MAX_ENTITY_VALUES].
        -- rewrite En. reflexivity.
        -- rewrite Hname. reflexivity.
    + destruct (Nat.eqb_spec (List.length acc) MAX_ENTITY_VALUES)
        as [E | _]; [lia |].
      apply IH. exact Hlen.
Qed.

Lemma sample_eq j l :
  sample j l = firstn MAX_ENTITY_VALUES (distinct [] (sampled_values j l)).
Proof.
  unfold sample, sampleValuesConfig.
  pose proof (sample_loop_values j l [] None) as H.
  destruct (sample_loop j l [] None) as [vs name]. simpl in *.
  apply H. unfold MAX_ENTITY_VALUES. lia.
Qed.

Lemma distinct_incl seen l : incl (distinct seen l) l.
Proof.
  revert seen. induction l as [| v l IH]; intros seen; simpl.
  - apply incl_refl.
  - destruct (existsb (strict_eq v) seen).
    + apply incl_tl, IH.
    + apply incl_cons; [left; reflexivity | apply incl_tl, IH].
Qed.

Lemma distinct_fresh seen l v : In v (distinct seen l) -> ~ In v seen.
Proof.
  revert seen. induction l as [| x l IH]; intros seen; simpl; [tauto |].
  destruct (existsb (strict_eq x) seen) eqn:E.
  - apply IH.
  - intros [-> | H].
    + intros Hin. apply existsb_strict_eq in Hin. congruence.
    + intros Hin. apply (IH _ H). apply in_or_app. left. exact Hin.
Qed.

Lemma distinct_NoDup seen l : NoDup (distinct seen l).
Proof.
  revert seen. induction l as [| x l IH]; intros seen; simpl.
  - constructor.
  - destruct (existsb (strict_eq x) seen); [apply IH |].
    constructor; [| apply IH].
    intros H. apply distinct_fresh in H. apply H, in_or_app. right. left.
    reflexivity.
Qed.

Lemma firstn_NoDup {A : Type} n (l : list A) : NoDup l -> NoDup (firstn n l).
Proof.
  intros H. rewrite <- (firstn_skipn n l) in H.
  apply NoDup_app_remove_r in H. exact H.
Qed.

Lemma firstn_incl {A : Type} n (l : list A) : incl (firstn n l) l.
Proof.
  intros x H. rewrite <- (firstn_skipn n l). apply in_or_app. left. exact H.
Qed.

(** Once the set holds [MAX_ENTITY_VALUES] values the loop has ended: the
    records that follow are not read. *)
Lemma sample_stops j prefix rest :
  List.length (sample j prefix) = MAX_ENTITY_VALUES ->
  sample j (prefix ++ rest) = sample j prefix.
Proof.
  unfold sample, sampleValuesConfig.
  assert (G : forall acc name,
             List.length acc < MAX_ENTITY_VALUES ->
             List.length (fst (sample_loop j prefix acc name))
             = MAX_ENTITY_VALUES ->
             sample_loop j (prefix ++ rest) acc name
             = sample_loop j prefix acc name).
  { induction prefix as [| a l IH]; intros acc name Hlen H.
    - simpl in H. lia.
    - cbn -[MAX_ENTITY_VALUES] in *.
      destruct (sampled j a).
      + pose proof (Set_add_length (AnomaliesTableRecord.entityValue a) acc).
        destruct (Nat.eqb_spec
                    (List.length
                       (Set_add (AnomaliesTableRecord.entityValue a) acc))
                    MAX_ENTITY_VALUES);
          [reflexivity |].
        apply IH; [lia | exact H].
      + destruct (Nat.eqb_spec (List.length acc) MAX_ENTITY_VALUES);
          [reflexivity |].
        apply IH; [lia | exact H]. }
  intros H.
  specialize (G [] None).
  destruct (sample_loop j prefix [] None) as [vs name] eqn:E.
  simpl in *. rewrite G; [reflexivity | unfold MAX_ENTITY_VALUES; lia | exact H].
Qed.

Lemma sampled_values_in j l v :
  In v (sampled_values j l) ->
  exists a, In a l /\ has_entity j a = true
            /\ AnomaliesTableRecord.entityValue a = v.
Proof.
  unfold sampled_values. rewrite in_map_iff.
  intros (a & <- & Ha). apply filter_In in Ha. destruct Ha as [Hin Hs].
  exists a. rewrite <- sampled_has_entity. auto.
Qed.

Lemma has_entity_value j a :
  has_entity j a = true ->
  AnomaliesTableRecord.entityValue a <> None
  /\ AnomaliesTableRecord.entityValue a <> Some "".
Proof.
  unfold has_entity. intros H.
  apply andb_prop in H. destruct H as [H _].
  apply andb_prop in H. destruct H as [_ H].
  destruct (AnomaliesTableRecord.entityValue a) as [v |]; [| discriminate].
  split; [discriminate |]. intros E. injection E as ->. discriminate.
Qed.

Lemma sampled_values_skip j prefix a rest :
  has_entity j a = false ->
  sampled_values j (prefix ++ a :: rest) = sampled_values j (prefix ++ rest).
Proof.
  intros H. unfold sampled_values. rewrite !filter_app. simpl.
  rewrite sampled_has_entity, H. reflexivity.
Qed.

(** A record with an empty or undefined entity value or name is not one the
    loop accepts. *)
Lemma empty_has_no_entity j a :
  AnomaliesTableRecord.entityValue a = None
  \/ AnomaliesTableRecord.entityValue a = Some ""
  \/ AnomaliesTableRecord.entityName a = None
  \/ AnomaliesTableRecord.entityName a = Some "" ->
  has_entity j a = false.
Proof.
  unfold has_entity.
  intros [E | [E | [E | E]]]; rewrite E; simpl;
    rewrite ?andb_false_r; reflexivity.
Qed.

(** C2. For every anomaly list (written [prefix ++ rest]) and job, the set of
    sampled entity values is made of the first [MAX_ENTITY_VALUES] = 3
    distinct values of the accepted records: it never holds more than 3
    values, the loop reads nothing after the record that brought the third,
    every sampled value is a defined, non-empty entity value of a record of
    the job with a defined, non-empty entity name, and a record whose entity
    value or name is empty or undefined leaves the sample as it is without
    that record. *)
Theorem sample_three_distinct_nonempty
    (jobId : string) (prefix rest : list AnomaliesTableRecord.t) :
  let anomalies := prefix ++ rest in
  let entityValues := sample jobId anomalies in
  entityValues
  = firstn MAX_ENTITY_VALUES (distinct [] (sampled_values jobId anomalies))
  /\ List.length entityValues <= 3
  /\ NoDup entityValues
  /\ (List.length (sample jobId prefix) = 3 ->
      entityValues = sample jobId prefix)
  /\ Forall (fun v =>
               v <> None /\ v <> Some ""
               /\ exists a, In a anomalies
                            /\ has_entity jobId a = true
                            /\ AnomaliesTableRecord.entityValue a = v)
            entityValues
  /\ (forall a,
         AnomaliesTableRecord.entityValue a = None
         \/ AnomaliesTableRecord.entityValue a = Some ""
         \/ AnomaliesTableRecord.entityName a = None
         \/ AnomaliesTableRecord.entityName a = Some "" ->
         sample jobId (prefix ++ a :: rest) = entityValues).
Proof.
  intros anomalies entityValues. subst entityValues.
  rewrite (sample_eq jobId anomalies).
  split; [reflexivity |].
  split; [apply firstn_le_length |].
  split; [apply firstn_NoDup, distinct_NoDup |].
  split; [| split].
  - intros H. rewrite <- sample_eq. apply sample_stops. exact H.
  - apply Forall_forall. intros v Hv.
    apply firstn_incl, distinct_incl, sampled_values_in in Hv.
    destruct Hv as (a & Hin & Ha & <-).
    destruct (has_entity_value _ _ Ha) as [H1 H2].
    repeat split; try assumption. exists a. auto.
  - intros a Ha. rewrite sample_eq.
    rewrite (sampled_values_skip jobId prefix a rest); [reflexivity |].
    apply empty_has_no_entity. exact Ha.
Qed.

Lemma sample_three_distinct_nonempty_witness :
  let us := anomaly "j1" (Some "country") (Some "US") (1 # 1) in
  let fr := anomaly "j1" (Some "country") (Some "FR") (1 # 1) in
  let de := anomaly "j1" (Some "country") (Some "DE") (1 # 1) in
  let it := anomaly "j1" (Some "country") (Some "IT") (1 # 1) in
  let blank := anomaly "j1" (Some "country") (Some "") (1 # 1) in
  sample "j1" ([us; fr; us; de] ++ [it]) = sample "j1" [us; fr; us; de]
  /\ sample "j1" ([us; fr; us; de] ++ blank :: [it])
     = [Some "US"; Some "FR"; Some "DE"].
Proof.
  intros us fr de it blank.
  destruct (sample_three_distinct_nonempty "j1" [us; fr; us; de] [it])
    as (_ & _ & _ & Hstop & _ & Hskip).
  split.
  - apply Hstop. reflexivity.
  - rewrite (Hskip blank); [reflexivity |]. right. left. reflexivity.
Defined.

Lemma find_sampled_none j l :
  find (sampled j) l = None -> sampled_values j l = [].
Proof.
  unfold sampled_values. induction l as [| a l IH]; simpl; [reflexivity |].
  destruct (sampled j a); [discriminate | exact IH].
Qed.

(** The column name of the request built for a job is the entity name of the
    first record of the list that belongs to the job and has a defined,
    non-empty entity value and entity name; when no record does, the column
    name is the empty string and the list of sample values is empty. *)
Theorem sampleValuesColumnName_first_entity
    (anomalies : list AnomaliesTableRecord.t) (jobId : string) :
  let config := sampleValuesConfig anomalies jobId in
  match find (has_entity jobId) anomalies with
  | Some a =>
      AnomaliesTableRecord.entityName a
      = Some (SampleValuesConfig.sampleValuesColumnName config)
  | None =>
      SampleValuesConfig.sampleValuesColumnName config = ""
      /\ SampleValuesConfig.sampleValues config = []
  end.
Proof.
  intros config.
  assert (Hfind : find (has_entity jobId) anomalies
                  = find (sampled jobId) anomalies).
  { induction anomalies as [| a l IH]; simpl; [reflexivity |].
    rewrite sampled_has_entity, IH. reflexivity. }
  rewrite Hfind.
  pose proof (sample_eq jobId anomalies) as Hvs.
  unfold sample in Hvs. fold config in Hvs.
  subst config. unfold sampleValuesConfig in *.
  pose proof (sample_loop_name jobId anomalies [] None) as Hname.
  destruct (sample_loop jobId anomalies [] None) as [vs name].
  cbn -[MAX_ENTITY_VALUES firstn] in *.
  rewrite Hname by (unfold MAX_ENTITY_VALUES; lia).
  destruct (find (sampled jobId) anomalies) as [a |] eqn:E.
  - apply find_some in E. destruct E as [_ E].
    apply sampled_ToBoolean in E. unfold or_empty.
    destruct (AnomaliesTableRecord.entityName a) as [n |];
      [| discriminate].
    rewrite E. reflexivity.
  - split; [reflexivity |].
    rewrite Hvs, (find_sampled_none _ _ E). reflexivity.
Qed.

(** The request the loop builds is the expected one. *)
Lemma sampleValuesConfig_expected anomalies jobId :
  sampleValuesConfig anomalies jobId = expected_request anomalies jobId.
Proof.
  pose proof (sampleValuesColumnName_first_entity anomalies jobId) as Hname.
  pose proof (sample_eq jobId anomalies) as Hvs.
  unfold sample in Hvs. cbv zeta in Hname.
  assert (Hids : SampleValuesConfig.emsLayerIds
                   (sampleValuesConfig anomalies jobId)
                 = COMMON_EMS_LAYER_IDS).
  { unfold sampleValuesConfig.
    destruct (sample_loop jobId anomalies [] None). reflexivity. }
  destruct (sampleValuesConfig anomalies jobId) as [ids vs name].
  cbn [SampleValuesConfig.emsLayerIds SampleValuesConfig.sampleValues
         SampleValuesConfig.sampleValuesColumnName] in *.
  unfold expected_request, first_entity_name. subst ids vs. f_equal.
  - f_equal. f_equal. unfold sampled_values. f_equal.
    apply filter_ext. intros a. apply sampled_has_entity.
  - destruct (find (has_entity jobId) anomalies) as [a |].
    + rewrite Hname. reflexivity.
    + apply Hname.
Qed.

(** C10. For every job, the suggestion service is called with the request
    whose column name is the entity name of the first record of the list
    that belongs to the job and has a defined, non-empty entity value and
    entity name; when no record does, the column name passed is the empty
    string and the list of sample values passed is empty.  The callback
    returns the answer of the service to that request, and the stored list is
    made of these answers. *)
Theorem suggest_passes_first_entity_name
    (mapsPlugin : MapsPlugin) (anomalies : list AnomaliesTableRecord.t)
    (jobIds : list string) (EMSSuggestions : EMSSuggestionsState) :
  (forall jobId,
      suggest mapsPlugin anomalies jobId
      = tag jobId (mapsPlugin (expected_request anomalies jobId)))
  /\ getEMSTermSuggestions (Some mapsPlugin) anomalies jobIds EMSSuggestions
     = Some (filter not_null
               (map (fun jobId =>
                       tag jobId
                         (mapsPlugin (expected_request anomalies jobId)))
                    jobIds))
  /\ (forall jobId,
         match find (has_entity jobId) anomalies with
         | Some a =>
             AnomaliesTableRecord.entityName a
             = Some (SampleValuesConfig.sampleValuesColumnName
                       (expected_request anomalies jobId))
         | None =>
             SampleValuesConfig.sampleValuesColumnName
               (expected_request anomalies jobId) = ""
             /\ SampleValuesConfig.sampleValues
                  (expected_request anomalies jobId) = []
         end).
Proof.
  assert (Hsuggest : forall jobId,
             suggest mapsPlugin anomalies jobId
             = tag jobId (mapsPlugin (expected_request anomalies jobId))).
  { intros jobId. unfold suggest, tag.
    rewrite sampleValuesConfig_expected. reflexivity. }
  split; [exact Hsuggest |]. split.
  - unfold getEMSTermSuggestions. do 2 f_equal.
    apply map_ext. exact Hsuggest.
  - intros jobId. rewrite <- sampleValuesConfig_expected.
    apply sampleValuesColumnName_first_entity.
Qed.

(** A service that answers only the request it should get for "j1": the
    callback returns its answer, tagged. *)
Example suggest_calls_the_service :
  let anomalies :=
    [ anomaly "j1" None (Some "DE") (1 # 1);
      anomaly "j1" (Some "country") (Some "US") (427 # 10);
      anomaly "j1" (Some "region") (Some "FR") (7 # 2) ] in
  let mapsPlugin : MapsPlugin :=
    fun config =>
      if String.eqb (SampleValuesConfig.sampleValuesColumnName config)
           "country"
      then Some (EMSTermJoinConfig.mk "world_countries" "iso2")
      else None in
  suggest mapsPlugin anomalies "j1"
  = Some (MLEMSTermJoinConfig.mk "j1" "world_countries" "iso2")
  /\ suggest mapsPlugin anomalies "j2" = None.
Proof. split; vm_compute; reflexivity. Qed.

(** ** The suggestion list *)

Lemma filter_not_null_map_Some {A B : Type} (f : A -> option B) l :
  filter not_null (map f l)
  = map Some (flat_map (fun a => match f a with
                                  | Some b => [b]
                                  | None => []
                                  end) l).
Proof.
  induction l as [| a l IH]; simpl; [reflexivity |].
  destruct (f a); simpl; rewrite IH; reflexivity.
Qed.

(** C5. With a maps plugin, the list stored by [getEMSTermSuggestions] holds,
    in the order of [jobIds], exactly the suggestions the service answered
    with a configuration, each tagged with the job it was requested for; the
    jobs answered with [null] leave nothing, and no entry of the stored list
    is [null]. *)
Theorem getEMSTermSuggestions_non_null
    (mapsPlugin : MapsPlugin) (anomalies : list AnomaliesTableRecord.t)
    (jobIds : list string) (EMSSuggestions : EMSSuggestionsState) :
  let stored :=
    entries (getEMSTermSuggestions (Some mapsPlugin) anomalies jobIds
               EMSSuggestions) in
  getEMSTermSuggestions (Some mapsPlugin) anomalies jobIds EMSSuggestions
  = Some stored
  /\ stored = map Some (flat_map (kept mapsPlugin anomalies) jobIds)
  /\ Forall (fun s => s <> None) stored.
Proof.
  simpl. split; [reflexivity |].
  assert (E : filter not_null (map (suggest mapsPlugin anomalies) jobIds)
              = map Some (flat_map (kept mapsPlugin anomalies) jobIds)).
  { rewrite filter_not_null_map_Some. f_equal.
    apply flat_map_ext. intros jobId. unfold suggest, kept.
    destruct (mapsPlugin (sampleValuesConfig anomalies jobId)); reflexivity. }
  split; [exact E |].
  apply Forall_forall. intros s Hs. apply filter_In in Hs.
  destruct Hs as [_ Hs]. destruct s; [discriminate | discriminate Hs].
Qed.

(** Without a maps plugin the state is left as it was. *)
Lemma getEMSTermSuggestions_no_plugin anomalies jobIds EMSSuggestions :
  getEMSTermSuggestions None anomalies jobIds EMSSuggestions = EMSSuggestions.
Proof. reflexivity. Qed.

(** ** The layer list *)

Lemma layerList_loop anomalies l :
  forall result count w out w',
    for_each (layerList_step anomalies) l (result, count) w = (Normal out, w') ->
    exists new,
      out = (result ++ new, count + List.length new)
      /\ Forall2 (built_from anomalies) new (non_null l)
      /\ forall i layer,
           nth_error new i = Some layer ->
           VectorLayerDescriptor.visible layer = Nat.eqb (count + i) 0.
Proof.
  induction l as [| [s |] l IH]; intros result count w out w' H; simpl in H.
  - js_inv. exists []. rewrite app_nil_r, Nat.add_0_r.
    repeat split; [constructor |]. intros [| i] layer Hi; discriminate Hi.
  - js_inv.
    match goal with
    | E : getChoroplethAnomaliesLayer _ _ _ _ = _ |- _ =>
        apply getChoroplethAnomaliesLayer_Normal in E;
        destruct E as (rows & Hrows & ->)
    end.
    apply IH in H. destruct H as (new & -> & Hbuilt & Hvis).
    eexists (_ :: new). split; [| split].
    + rewrite <- app_assoc. simpl. f_equal. lia.
    + simpl. constructor; [| exact Hbuilt].
      eexists _, _, _, _. split; [exact Hrows | reflexivity].
    + intros [| i] layer Hi; simpl in Hi.
      * injection Hi as <-. simpl. rewrite Nat.add_0_r. reflexivity.
      * rewrite (Hvis _ _ Hi). f_equal. lia.
  - js_inv. apply IH in H. exact H.
Qed.

Lemma filter_none {A : Type} (f : A -> bool) (l : list A) :
  (forall x, In x l -> f x = false) -> filter f l = [].
Proof.
  induction l as [| x l IH]; intros H; simpl; [reflexivity |].
  rewrite (H x (or_introl eq_refl)). apply IH. intros y Hy. apply H. right.
  exact Hy.
Qed.

Lemma visible_only_first (layers : list VectorLayerDescriptor.t) :
  (forall i layer,
      nth_error layers i = Some layer ->
      VectorLayerDescriptor.visible layer = Nat.eqb i 0) ->
  List.length (filter VectorLayerDescriptor.visible layers) <= 1.
Proof.
  destruct layers as [| first rest]; intros H; simpl; [lia |].
  assert (E : filter VectorLayerDescriptor.visible rest = []).
  { apply filter_none. intros layer Hin.
    apply In_nth_error in Hin. destruct Hin as [i Hi].
    rewrite (H (S i) layer Hi). reflexivity. }
  rewrite E. destruct (VectorLayerDescriptor.visible first); simpl; lia.
Qed.

(** C8. Whenever the layer list is built, its layers are, in order, the
    descriptors built from the non-null suggestions; the layer at position 0,
    built from the first suggestion, has [visible = true], every later one has
    [visible = false], so at most one layer is visible. *)
Theorem layerList_first_visible
    (EMSSuggestions : EMSSuggestionsState)
    (anomalies : list AnomaliesTableRecord.t)
    (w w' : World) (layers : list VectorLayerDescriptor.t) :
  layerList EMSSuggestions anomalies w = (Normal layers, w') ->
  Forall2 (built_from anomalies) layers (non_null (entries EMSSuggestions))
  /\ (forall i layer,
         nth_error layers i = Some layer ->
         VectorLayerDescriptor.visible layer = Nat.eqb i 0)
  /\ List.length (filter VectorLayerDescriptor.visible layers) <= 1.
Proof.
  intros H.
  assert (G : Forall2 (built_from anomalies) layers
                (non_null (entries EMSSuggestions))
              /\ (forall i layer,
                     nth_error layers i = Some layer ->
                     VectorLayerDescriptor.visible layer = Nat.eqb i 0)).
  { unfold layerList in H.
    destruct EMSSuggestions as [[| s l] |]; simpl.
    - js_inv. split; [constructor |]. intros [| i] ? Hi; discriminate Hi.
    - apply bind_Normal in H. destruct H as (acc & w1 & Hloop & Hret).
      apply ret_Normal in Hret. destruct Hret as [<- _].
      apply layerList_loop in Hloop.
      destruct Hloop as (new & -> & Hbuilt & Hvis).
      split; [exact Hbuilt | exact Hvis].
    - js_inv. split; [constructor |]. intros [| i] ? Hi; discriminate Hi. }
  destruct G as [G1 G2]. repeat split; try assumption.
  apply visible_only_first. exact G2.
Qed.

Lemma layerList_first_visible_witness :
  let anomalies :=
    [ anomaly "j1" (Some "country") (Some "US") (427 # 10);
      anomaly "j2" (Some "country") (Some "FR") (999 # 10) ] in
  let EMSSuggestions :=
    Some [ Some (MLEMSTermJoinConfig.mk "j1" "world_countries" "iso2");
           None;
           Some (MLEMSTermJoinConfig.mk "j2" "world_countries" "iso2") ] in
  let out := layerList EMSSuggestions anomalies pristine in
  let layers := match fst out with Normal l => l | Throw _ => [] end in
  map VectorLayerDescriptor.visible layers = [true; false]
  /\ List.length (filter VectorLayerDescriptor.visible layers) <= 1.
Proof.
  intros anomalies EMSSuggestions out layers.
  split; [vm_compute; reflexivity |].
  apply (layerList_first_visible EMSSuggestions anomalies pristine (snd out)
           layers).
  vm_compute. reflexivity.
Defined.

(** ** Registration of the saved-object types *)

Section SavedObjectsProperties.
Context {imports : Imports}.
Variable encryptedSavedObjects : EncryptedSavedObjectsPluginSetup.
Variable actionTypeRegistry : ActionTypeRegistry.

Lemma savedObjects_calls_app log1 log2 :
  savedObjects_calls (log1 ++ log2)
  = savedObjects_calls log1 ++ savedObjects_calls log2.
Proof.
  induction log1 as [| [t | r] log1 IH]; simpl; rewrite ?IH; reflexivity.
Qed.

Lemma encryptedSavedObjects_calls_app log1 log2 :
  encryptedSavedObjects_calls (log1 ++ log2)
  = encryptedSavedObjects_calls log1 ++ encryptedSavedObjects_calls log2.
Proof.
  induction log1 as [| [t | r] log1 IH]; simpl; rewrite ?IH; reflexivity.
Qed.

(** The routine makes four calls, in this order, after those already made. *)
Lemma setupSavedObjects_log log :
  setupSavedObjects encryptedSavedObjects actionTypeRegistry log
  = log
    ++ [ savedObjects_registerType
           (mkSavedObjectsType "action" true "single" mappings_action
              (Some (getMigrations encryptedSavedObjects))
              (Some (action_management actionTypeRegistry)));
         encryptedSavedObjects_registerType
           (mkEncrypted "action" ["secrets"] (Some ["name"]));
         savedObjects_registerType
           (mkSavedObjectsType "action_task_params" true "single"
              mappings_action_task_params None None);
         encryptedSavedObjects_registerType
           (mkEncrypted "action_task_params" ["apiKey"] None) ].
Proof.
  unfold setupSavedObjects, call. rewrite <- !app_assoc. reflexivity.
Qed.

(** C9. The registrations made with the encrypted-saved-objects service
    are exactly two: type "action" encrypts the single attribute "secrets"
    and excludes the single attribute "name" from the additional
    authenticated data; type "action_task_params" encrypts the single
    attribute "apiKey" and gives no exclusion set. *)
Theorem setupSavedObjects_encrypted_attributes log :
  encryptedSavedObjects_calls
    (setupSavedObjects encryptedSavedObjects actionTypeRegistry log)
  = encryptedSavedObjects_calls log
    ++ [ mkEncrypted "action" ["secrets"] (Some ["name"]);
         mkEncrypted "action_task_params" ["apiKey"] None ].
Proof.
  rewrite setupSavedObjects_log, encryptedSavedObjects_calls_app.
  reflexivity.
Qed.

(** C6, as the code has it.  The routine registers the two types "action"
    and "action_task_params" with both services, each service's
    [registerType] being called exactly twice.  Type "action" comes with its
    mappings, its migration hooks, its import and export hooks and its
    encrypted attributes; type "action_task_params" comes with its mappings
    and its encrypted attributes only, without migration hooks and without
    import or export hooks. *)
Theorem setupSavedObjects_registers_two_types log :
  let log' := setupSavedObjects encryptedSavedObjects actionTypeRegistry log in
  log'
  = log
    ++ [ savedObjects_registerType
           (mkSavedObjectsType "action" true "single" mappings_action
              (Some (getMigrations encryptedSavedObjects))
              (Some (mkManagement "name" true
                       (fun obj =>
                          ("Connector: [" ++ attributes_name obj ++ "]")%string)
                       (fun _ objects =>
                          transformConnectorsForExport objects
                            actionTypeRegistry)
                       (fun connectors =>
                          mkImportResult (getImportWarnings connectors)))));
         encryptedSavedObjects_registerType
           (mkEncrypted "action" ["secrets"] (Some ["name"]));
         savedObjects_registerType
           (mkSavedObjectsType "action_task_params" true "single"
              mappings_action_task_params None None);
         encryptedSavedObjects_registerType
           (mkEncrypted "action_task_params" ["apiKey"] None) ]
  /\ List.length (savedObjects_calls log')
     = 2 + List.length (savedObjects_calls log)
  /\ List.length (encryptedSavedObjects_calls log')
     = 2 + List.length (encryptedSavedObjects_calls log)
  /\ map (fun t => (name t, has_hooks t))
       (savedObjects_calls
          (setupSavedObjects encryptedSavedObjects actionTypeRegistry []))
     = [("action", true); ("action_task_params", false)].
Proof.
  intros log'. subst log'.
  split; [apply setupSavedObjects_log |].
  rewrite setupSavedObjects_log, savedObjects_calls_app,
    encryptedSavedObjects_calls_app, !length_app.
  simpl. repeat split; lia.
Qed.
End SavedObjectsProperties.

(** C6, as worded: "each [type] with its ... migration hooks ... and
    import/export transform hooks".  Type "action_task_params" is registered
    without either. *)
Lemma setupSavedObjects_not_every_type_has_hooks :
  ~ (forall t : SavedObjectsType,
        In t (savedObjects_calls (setupSavedObjects tt tt [])) ->
        has_hooks t = true).
Proof.
  intros H.
  specialize (H (mkSavedObjectsType "action_task_params" true "single"
                   mappings_action_task_params None None)).
  simpl in H. discriminate H. right. left. reflexivity.
Qed.

(** * Further properties *)

(** ** The rows of [getAnomalyRows] *)

Lemma NoDup_map_eq {A B : Type} (f : A -> B) (l : list A) x y :
  NoDup (map f l) -> In x l -> In y l -> f x = f y -> x = y.
Proof.
  induction l as [| a l IH]; simpl; intros ND Hx Hy E; [contradiction |].
  inversion ND as [| ? ? Hnot ND']; subst.
  destruct Hx as [-> | Hx], Hy as [-> | Hy].
  - reflexivity.
  - exfalso. apply Hnot. rewrite E. apply in_map. exact Hy.
  - exfalso. apply Hnot. rewrite <- E. apply in_map. exact Hx.
  - apply IH; assumption.
Qed.

(** Whenever the aggregation returns, a record of the job whose key is not a
    property of [Object.prototype] is counted in exactly one row, the row of
    its key; and every row is the summary of the records of the job filed
    under its key: their number, the entity value of the first of them, the
    floor of their greatest severity. *)
Theorem getAnomalyRows_one_row_for_each_key anomalies j w rows w' :
  getAnomalyRows anomalies j w = (Normal rows, w') ->
  (forall a,
      In a anomalies ->
      AnomaliesTableRecord.jobId a = j ->
      ObjectPrototype_has (key a) = false ->
      exists r, (In r rows /\ row_key r = key a)
                /\ forall r', In r' rows /\ row_key r' = key a -> r' = r)
  /\ (forall r,
         In r rows -> summary (group j (row_key r) anomalies) = Some r).
Proof.
  intros H.
  destruct (getAnomalyRows_partition _ _ _ _ _ H) as (ND & Hrows & Hrec).
  split.
  - intros a Hin Hj Hhas. destruct (Hrec a Hin Hj Hhas) as (r & Hr & Hk).
    exists r. split; [auto |]. intros r' [Hr' Hk'].
    apply (NoDup_map_eq row_key rows); try assumption. congruence.
  - intros r Hr. apply Hrows. exact Hr.
Qed.

Lemma getAnomalyRows_one_row_for_each_key_witness :
  let us1 := anomaly "j1" (Some "country") (Some "US") (427 # 10) in
  let us2 := anomaly "j1" (Some "country") (Some "US") (101 # 10) in
  let fr := anomaly "j1" (Some "country") (Some "FR") (7 # 2) in
  let rows := [AnomalyRow.mk 2 (Some "US") 42; AnomalyRow.mk 1 (Some "FR") 3] in
  (exists r, (In r rows /\ row_key r = "US")
             /\ forall r', In r' rows /\ row_key r' = "US" -> r' = r)
  /\ summary (group "j1" "FR" [us1; fr; us2]) = Some (AnomalyRow.mk 1 (Some "FR") 3).
Proof.
  intros us1 us2 fr rows.
  destruct (getAnomalyRows_one_row_for_each_key [us1; fr; us2] "j1" pristine
              rows pristine) as [Hone Hsum].
  - vm_compute. reflexivity.
  - split.
    + apply (Hone us2); [right; right; left; reflexivity | reflexivity |
                          reflexivity].
    + apply (Hsum (AnomalyRow.mk 1 (Some "FR") 3)). right. left. reflexivity.
Defined.

(** *** Bounds on a row *)

Lemma maximum_ge s l x : In x (s :: l) -> (x <= maximum s l)%Q.
Proof.
  unfold maximum. revert s x. induction l as [| y l IH]; intros s x Hin.
  - destruct Hin as [<- | []]. apply Qle_refl.
  - simpl. destruct Hin as [<- | [<- | Hin]].
    + eapply Qle_trans; [apply Q.le_max_l | apply IH; left; reflexivity].
    + eapply Qle_trans; [apply Q.le_max_r | apply IH; left; reflexivity].
    + apply IH. right. exact Hin.
Qed.

Lemma maximum_attained s l : exists x, In x (s :: l) /\ (maximum s l == x)%Q.
Proof.
  unfold maximum. revert s. induction l as [| y l IH]; intros s.
  - exists s. split; [left; reflexivity | apply Qeq_refl].
  - simpl. destruct (IH (Qmax s y)) as (x & [<- | Hin] & E).
    + destruct (Q.max_spec s y) as [[_ Em] | [_ Em]].
      * exists y. split; [right; left; reflexivity |].
        eapply Qeq_trans; [exact E | exact Em].
      * exists s. split; [left; reflexivity |].
        eapply Qeq_trans; [exact E | exact Em].
    + exists x. split; [right; right; exact Hin | exact E].
Qed.

(** Whenever the aggregation returns, every row counts at least one record,
    its [max_severity] is the floor of the severity of a record of the job
    filed under its key, and no record of the job filed under its key has a
    severity with a greater floor. *)
Theorem getAnomalyRows_row_bounds anomalies j w rows w' :
  getAnomalyRows anomalies j w = (Normal rows, w') ->
  forall r,
    In r rows ->
    (1 <= AnomalyRow.count r)%Z
    /\ (exists a,
           In a anomalies
           /\ AnomaliesTableRecord.jobId a = j
           /\ key a = row_key r
           /\ AnomalyRow.max_severity r
              = Qfloor (AnomaliesTableRecord.severity a))
    /\ (forall a,
           In a anomalies ->
           AnomaliesTableRecord.jobId a = j ->
           key a = row_key r ->
           (Qfloor (AnomaliesTableRecord.severity a)
            <= AnomalyRow.max_severity r)%Z).
Proof.
  intros H r Hr.
  destruct (getAnomalyRows_partition _ _ _ _ _ H) as (_ & Hrows & _).
  destruct (Hrows r Hr) as [_ Hsum].
  assert (Hg : forall a, In a (group j (row_key r) anomalies) <->
                         In a anomalies
                         /\ AnomaliesTableRecord.jobId a = j
                         /\ key a = row_key r) by (intros; apply group_In).
  destruct (group j (row_key r) anomalies) as [| b g]; [discriminate |].
  injection Hsum as <-. simpl. split; [lia |]. split.
  - destruct (maximum_attained (AnomaliesTableRecord.severity b)
                (map AnomaliesTableRecord.severity g)) as (x & Hx & E).
    assert (Ha : exists a, In a (b :: g)
                           /\ AnomaliesTableRecord.severity a = x).
    { destruct Hx as [<- | Hx]; [exists b; split; [left |]; reflexivity |].
      apply in_map_iff in Hx. destruct Hx as (a & <- & Ha).
      exists a. split; [right; exact Ha | reflexivity]. }
    destruct Ha as (a & Ha & <-). exists a.
    apply Hg in Ha. destruct Ha as (? & ? & ?).
    repeat split; try assumption. apply Qfloor_comp. exact E.
  - intros a Hin Hj Hk. apply Qfloor_resp_le.
    assert (Ha : In a (b :: g)) by (apply Hg; auto).
    apply maximum_ge. destruct Ha as [<- | Ha]; [left; reflexivity |].
    right. apply in_map. exact Ha.
Qed.

Lemma getAnomalyRows_row_bounds_witness :
  let us1 := anomaly "j1" (Some "country") (Some "US") (427 # 10) in
  let us2 := anomaly "j1" (Some "country") (Some "US") (101 # 10) in
  (1 <= 2)%Z /\ (Qfloor (101 # 10) <= 42)%Z.
Proof.
  intros us1 us2.
  destruct (getAnomalyRows_row_bounds [us1; us2] "j1" pristine
              [AnomalyRow.mk 2 (Some "US") 42] pristine)
    with (r := AnomalyRow.mk 2 (Some "US") 42) as (Hc & _ & Hmax).
  - vm_compute. reflexivity.
  - left. reflexivity.
  - split; [exact Hc |].
    apply (Hmax us2); [right; left; reflexivity | reflexivity | reflexivity].
Defined.

(** *** The counts add up *)

Lemma total_app l1 l2 : total (l1 ++ l2) = (total l1 + total l2)%Z.
Proof.
  unfold total. induction l1 as [| r l1 IH]; simpl; [reflexivity |].
  rewrite IH. lia.
Qed.

Lemma total_perm l1 l2 : Permutation l1 l2 -> total l1 = total l2.
Proof.
  unfold total. induction 1; simpl; lia.
Qed.

Lemma total_store k r r' o :
  own k o = Some r ->
  total (map snd (store k r' o))
  = (total (map snd o) - AnomalyRow.count r + AnomalyRow.count r')%Z.
Proof.
  unfold total. induction o as [| [k0 r0] o IH]; simpl; [discriminate |].
  destruct (String.eqb k k0).
  - intros E. injection E as ->. simpl. lia.
  - intros E. simpl. rewrite (IH E). lia.
Qed.

(** One iteration adds one to the sum of the counts for a counted record,
    and nothing otherwise. *)
Lemma getAnomalyRows_body_total j p o a w o' w' :
  aggregated j p o ->
  getAnomalyRows_body j o a w = (Normal o', w') ->
  total (map snd o')
  = (total (map snd o) + if counted j a then 1 else 0)%Z.
Proof.
  intros [_ Hown]. unfold getAnomalyRows_body, counted, of_job. fold (key a).
  destruct (String.eqb (AnomaliesTableRecord.jobId a) j); simpl;
    [| intros E; injection E as <- <-; lia].
  unfold Get. pose proof (Hown (key a)) as Hk.
  unfold ObjectPrototype_has in *.
  destruct (own (key a) o) as [r |] eqn:Eo.
  - destruct (existsb (String.eqb (key a)) ObjectPrototype_functions
              || String.eqb (key a) "__proto__"); [discriminate |].
    intros E. injection E as <- <-.
    rewrite (total_store _ _ _ _ Eo). simpl. lia.
  - destruct (existsb (String.eqb (key a)) ObjectPrototype_functions);
      [intros E; injection E as <- <-; simpl; lia |].
    destruct (String.eqb (key a) "__proto__");
      [intros E; injection E as <- <-; simpl; lia |].
    destruct (String.eqb (key a) "count" && ObjectPrototype_count w);
      [discriminate |].
    intros E. injection E as <- <-. unfold define.
    rewrite map_app, total_app. simpl. unfold total at 2. simpl. lia.
Qed.

Lemma getAnomalyRows_loop_total j l :
  forall p o w o' w',
    aggregated j p o ->
    for_each (getAnomalyRows_body j) l o w = (Normal o', w') ->
    total (map snd o')
    = (total (map snd o) + Z.of_nat (List.length (filter (counted j) l)))%Z.
Proof.
  induction l as [| a l IH]; intros p o w o' w' Hagg H; simpl in H.
  - apply ret_Normal in H. destruct H as [<- _]. simpl. lia.
  - apply bind_Normal in H. destruct H as (o1 & w1 & Hbody & Hrest).
    pose proof (getAnomalyRows_body_aggregated _ _ _ _ _ _ _ Hagg Hbody)
      as Hagg1.
    rewrite (IH _ _ _ _ _ Hagg1 Hrest),
      (getAnomalyRows_body_total _ _ _ _ _ _ _ Hagg Hbody).
    simpl. destruct (counted j a); simpl List.length; lia.
Qed.

(** Whenever the aggregation returns, the counts of its rows add up to the
    number of records of the job whose key is not a property of
    [Object.prototype]; they never exceed the number of records of the
    job. *)
Theorem getAnomalyRows_counts_add_up anomalies j w rows w' :
  getAnomalyRows anomalies j w = (Normal rows, w') ->
  total rows = Z.of_nat (List.length (filter (counted j) anomalies))
  /\ (total rows <= Z.of_nat (List.length (filter (of_job j) anomalies)))%Z.
Proof.
  unfold getAnomalyRows. intros H.
  apply bind_Normal in H. destruct H as (o & w1 & Hloop & Hret).
  apply ret_Normal in Hret. destruct Hret as [<- _].
  rewrite (total_perm _ _ (Object_values_perm o)).
  rewrite (getAnomalyRows_loop_total j anomalies [] [] w o w1
             (aggregated_nil j) Hloop).
  change (total (map snd [])) with 0%Z.
  split; [lia |].
  assert (Hle : List.length (filter (counted j) anomalies)
                <= List.length (filter (of_job j) anomalies)).
  { clear. induction anomalies as [| a l IH]; simpl; [lia |].
    unfold counted at 1. destruct (of_job j a); simpl.
    - destruct (negb (ObjectPrototype_has (key a))); simpl; lia.
    - exact IH. }
  lia.
Qed.

Lemma getAnomalyRows_counts_add_up_witness :
  let anomalies :=
    [ anomaly "j1" (Some "country") (Some "US") (427 # 10);
      anomaly "j1" (Some "country") (Some "toString") (1 # 1);
      anomaly "j2" (Some "country") (Some "FR") (999 # 10);
      anomaly "j1" (Some "country") (Some "US") (101 # 10) ] in
  total [AnomalyRow.mk 2 (Some "US") 42] = 2%Z
  /\ (total [AnomalyRow.mk 2 (Some "US") 42] <= 3)%Z.
Proof.
  intros anomalies.
  apply (getAnomalyRows_counts_add_up anomalies "j1" pristine
           [AnomalyRow.mk 2 (Some "US") 42] (mkWorld false ["toString"] 0)).
  vm_compute. reflexivity.
Defined.

(** *** Records of other jobs *)

Lemma getAnomalyRows_loop_of_job j l :
  forall o w,
    for_each (getAnomalyRows_body j) (filter (of_job j) l) o w
    = for_each (getAnomalyRows_body j) l o w.
Proof.
  induction l as [| a l IH]; intros o w; simpl; [reflexivity |].
  destruct (of_job j a) eqn:E; simpl.
  - unfold bind. destruct (getAnomalyRows_body j o a w) as [[o1 | e] w1];
      [apply IH | reflexivity].
  - unfold bind, getAnomalyRows_body. unfold of_job in E. rewrite E. simpl.
    apply IH.
Qed.

(** The aggregation for a job reads the records of that job only: in every
    world, the outcome on a list is the outcome on the records of the job
    in it, and a list without a record of the job gives no row and changes
    nothing. *)
Theorem getAnomalyRows_other_jobs_ignored anomalies j w :
  getAnomalyRows (filter (of_job j) anomalies) j w = getAnomalyRows anomalies j w
  /\ (filter (of_job j) anomalies = [] ->
      getAnomalyRows anomalies j w = (Normal [], w)).
Proof.
  assert (E : getAnomalyRows (filter (of_job j) anomalies) j w
              = getAnomalyRows anomalies j w).
  { unfold getAnomalyRows, bind. rewrite getAnomalyRows_loop_of_job.
    reflexivity. }
  split; [exact E |].
  intros Hnone. rewrite <- E, Hnone. reflexivity.
Qed.

Lemma getAnomalyRows_other_jobs_ignored_witness :
  getAnomalyRows
    [ anomaly "j2" (Some "country") (Some "FR") (999 # 10);
      anomaly "j3" (Some "field") (Some "__proto__") (1 # 1) ]
    "j1" pristine
  = (Normal [], pristine).
Proof.
  apply getAnomalyRows_other_jobs_ignored. reflexivity.
Defined.

(** *** The order of the rows *)

Lemma integer_keyed_In o n r :
  In (n, r) (integer_keyed o) ->
  exists k, In (k, r) o /\ array_index k = Some n.
Proof.
  induction o as [| [k r0] o IH]; simpl; [contradiction |].
  destruct (array_index k) as [m |] eqn:E.
  - intros Hin.
    apply (Permutation_in _ (insert_by_index_perm m r0 (integer_keyed o)))
      in Hin.
    destruct Hin as [Heq | Hin].
    + injection Heq as <- <-. exists k. auto.
    + destruct (IH Hin) as (k' & ? & ?). exists k'. auto.
  - intros Hin. destruct (IH Hin) as (k' & ? & ?). exists k'. auto.
Qed.

Lemma string_keyed_In o r :
  In r (string_keyed o) ->
  exists k, In (k, r) o /\ array_index k = None.
Proof.
  induction o as [| [k r0] o IH]; simpl; [contradiction |].
  destruct (array_index k) eqn:E.
  - intros Hin. destruct (IH Hin) as (k' & ? & ?). exists k'. auto.
  - intros [<- | Hin]; [exists k; auto |].
    destruct (IH Hin) as (k' & ? & ?). exists k'. auto.
Qed.

Lemma StronglySorted_map_snd (l : list (N * AnomalyRow.t)) :
  Forall (fun x => row_index (snd x) = Some (fst x)) l ->
  StronglySorted (fun x y => (fst x <= fst y)%N) l ->
  StronglySorted index_le (map snd l).
Proof.
  intros Hidx Hs. induction Hs as [| x l Hs IH Hall]; simpl; [constructor |].
  inversion Hidx as [| ? ? Hx Hl]; subst.
  constructor; [apply IH; exact Hl |].
  apply Forall_map. rewrite Forall_forall in *. intros y Hy.
  unfold index_le. rewrite Hx, (Hl y Hy). apply Hall. exact Hy.
Qed.

(** Whenever the aggregation returns, its rows come in two runs: first the
    rows whose key is an array index (the canonical decimal form of an integer
    below 2^32 - 1), by ascending index, then the rows of all other keys. *)
Theorem getAnomalyRows_indices_first anomalies j w rows w' :
  getAnomalyRows anomalies j w = (Normal rows, w') ->
  exists indexed named,
    rows = indexed ++ named
    /\ Forall (fun r => row_index r <> None) indexed
    /\ StronglySorted index_le indexed
    /\ Forall (fun r => row_index r = None) named.
Proof.
  intros H. apply getAnomalyRows_Normal in H. destruct H as (o & Hagg & ->).
  exists (map snd (integer_keyed o)), (string_keyed o).
  assert (Hidx : Forall (fun x => row_index (snd x) = Some (fst x))
                   (integer_keyed o)).
  { apply Forall_forall. intros [n r] Hin. simpl.
    apply integer_keyed_In in Hin. destruct Hin as (k & Hin & E).
    destruct (aggregated_entry _ _ _ _ _ Hagg Hin) as (_ & _ & Hk).
    unfold row_index. rewrite Hk. exact E. }
  split; [reflexivity |]. split; [| split].
  - apply Forall_map. eapply Forall_impl; [| exact Hidx].
    simpl. intros x E. rewrite E. discriminate.
  - apply StronglySorted_map_snd; [exact Hidx | apply integer_keyed_sorted].
  - apply Forall_forall. intros r Hin.
    apply string_keyed_In in Hin. destruct Hin as (k & Hin & E).
    destruct (aggregated_entry _ _ _ _ _ Hagg Hin) as (_ & _ & Hk).
    unfold row_index. rewrite Hk. exact E.
Qed.

Lemma getAnomalyRows_indices_first_witness :
  exists indexed named,
    [ AnomalyRow.mk 1 (Some "10001") 1; AnomalyRow.mk 1 (Some "90210") 1;
      AnomalyRow.mk 1 (Some "zz") 1 ] = indexed ++ named
    /\ Forall (fun r => row_index r <> None) indexed
    /\ StronglySorted index_le indexed
    /\ Forall (fun r => row_index r = None) named.
Proof.
  apply (getAnomalyRows_indices_first
           [ anomaly "j1" None (Some "90210") (1 # 1);
             anomaly "j1" None (Some "zz") (1 # 1);
             anomaly "j1" None (Some "10001") (1 # 1) ]
           "j1" pristine _ pristine).
  vm_compute. reflexivity.
Defined.

Lemma getAnomalyRows_partition_total_witness :
  exists rows,
    getAnomalyRows
      [ anomaly "j1" (Some "country") (Some "US") (427 # 10);
        anomaly "j1" (Some "country") (Some "FR") (7 # 2) ]
      "j1" pristine
    = (Normal rows, pristine)
    /\ List.length rows = 2.
Proof.
  destruct (getAnomalyRows_partition_total
              [ anomaly "j1" (Some "country") (Some "US") (427 # 10);
                anomaly "j1" (Some "country") (Some "FR") (7 # 2) ]
              "j1" pristine) as (rows & E & _).
  - intros a [<- | [<- | []]] _; reflexivity.
  - exists rows. split; [exact E |].
    vm_compute in E. injection E as <-. reflexivity.
Defined.

Lemma getAnomalyRows_pure_witness :
  exists rows,
    forall w,
      fst (getAnomalyRows
             [ anomaly "j1" (Some "country") (Some "US") (427 # 10);
               anomaly "j1" (Some "country") (Some "constructor") (7 # 2) ]
             "j1" w)
      = Normal rows
      /\ ObjectPrototype_count
           (snd (getAnomalyRows
                   [ anomaly "j1" (Some "country") (Some "US") (427 # 10);
                     anomaly "j1" (Some "country") (Some "constructor")
                       (7 # 2) ]
                   "j1" w))
         = ObjectPrototype_count w.
Proof.
  apply getAnomalyRows_pure.
  intros a [<- | [<- | []]] _; split; discriminate.
Defined.

Lemma getChoroplethAnomaliesLayer_returns_witness :
  exists rows,
    getAnomalyRows
      [ anomaly "j1" (Some "country") (Some "US") (427 # 10) ] "j1"
      (drawn pristine)
    = (Normal rows, drawn pristine)
    /\ getChoroplethAnomaliesLayer
         [ anomaly "j1" (Some "country") (Some "US") (427 # 10) ]
         (MLEMSTermJoinConfig.mk "j1" "world_countries" "iso2") true pristine
       = (Normal (choropleth_layer (htmlId 0) rows
                    (MLEMSTermJoinConfig.mk "j1" "world_countries" "iso2")
                    true),
          drawn pristine).
Proof.
  apply (getChoroplethAnomaliesLayer_returns
           [ anomaly "j1" (Some "country") (Some "US") (427 # 10) ]
           (MLEMSTermJoinConfig.mk "j1" "world_countries" "iso2") true
           pristine).
  intros a [<- | []] _. reflexivity.
Defined.

(** ** The sample of a job *)

Lemma sampled_of_job j a : sampled j a = true -> of_job j a = true.
Proof.
  unfold sampled, of_job. intros H.
  repeat (apply andb_prop in H; destruct H as [H _]).
  rewrite String.eqb_sym. exact H.
Qed.

Lemma sample_loop_of_job j l :
  forall acc name,
    List.length acc < MAX_ENTITY_VALUES ->
    sample_loop j (filter (of_job j) l) acc name = sample_loop j l acc name.
Proof.
  induction l as [| a l IH]; intros acc name Hlen; [reflexivity |].
  cbn -[MAX_ENTITY_VALUES].
  destruct (of_job j a) eqn:E; cbn -[MAX_ENTITY_VALUES].
  - destruct (sampled j a).
    + pose proof (Set_add_length (AnomaliesTableRecord.entityValue a) acc).
      destruct (Nat.eqb_spec
                  (List.length
                     (Set_add (AnomaliesTableRecord.entityValue a) acc))
                  MAX_ENTITY_VALUES); [reflexivity |].
      apply IH. lia.
    + destruct (Nat.eqb_spec (List.length acc) MAX_ENTITY_VALUES);
        [reflexivity |].
      apply IH. exact Hlen.
  - destruct (sampled j a) eqn:Es.
    + apply sampled_of_job in Es. congruence.
    + destruct (Nat.eqb_spec (List.length acc) MAX_ENTITY_VALUES); [lia |].
      apply IH. exact Hlen.
Qed.

(** The request built for a job depends on the records of that job only. *)
Theorem sampleValuesConfig_other_jobs_ignored anomalies jobId :
  sampleValuesConfig (filter (of_job jobId) anomalies) jobId
  = sampleValuesConfig anomalies jobId.
Proof.
  unfold sampleValuesConfig. rewrite sample_loop_of_job; [reflexivity |].
  unfold MAX_ENTITY_VALUES. simpl. lia.
Qed.

Lemma find_sampled_some j l a :
  find (sampled j) l = Some a ->
  exists rest,
    sampled_values j l = AnomaliesTableRecord.entityValue a :: rest.
Proof.
  unfold sampled_values. induction l as [| b l IH]; simpl; [discriminate |].
  destruct (sampled j b).
  - intros E. injection E as ->. simpl. eexists. reflexivity.
  - exact IH.
Qed.

Lemma sampleValuesColumnName_eq anomalies jobId :
  SampleValuesConfig.sampleValuesColumnName (sampleValuesConfig anomalies jobId)
  = or_empty match find (sampled jobId) anomalies with
             | Some a => AnomaliesTableRecord.entityName a
             | None => None
             end.
Proof.
  unfold sampleValuesConfig.
  pose proof (sample_loop_name jobId anomalies [] None) as Hname.
  destruct (sample_loop jobId anomalies [] None) as [vs name].
  cbn -[MAX_ENTITY_VALUES] in *.
  rewrite Hname by (unfold MAX_ENTITY_VALUES; lia). reflexivity.
Qed.

(** The service is given a column name exactly when it is given sample
    values: the column name is the empty string if and only if the list of
    sample values is empty. *)
Theorem sampleValuesColumnName_empty_iff anomalies jobId :
  let config := sampleValuesConfig anomalies jobId in
  SampleValuesConfig.sampleValuesColumnName config = ""
  <-> SampleValuesConfig.sampleValues config = [].
Proof.
  intros config. subst config. rewrite sampleValuesColumnName_eq.
  fold (sample jobId anomalies). rewrite sample_eq.
  destruct (find (sampled jobId) anomalies) as [a |] eqn:E.
  - destruct (find_sampled_some _ _ _ E) as [rest ->].
    apply find_some in E. destruct E as [_ E].
    apply sampled_ToBoolean in E. unfold or_empty.
    destruct (AnomaliesTableRecord.entityName a) as [n |]; [| discriminate].
    rewrite E. simpl in E. apply negb_true_iff, String.eqb_neq in E.
    split; [intros Hn; contradiction | discriminate].
  - rewrite (find_sampled_none _ _ E). split; reflexivity.
Qed.

Lemma distinct_app seen l1 l2 :
  distinct seen (l1 ++ l2)
  = distinct seen l1 ++ distinct (seen ++ distinct seen l1) l2.
Proof.
  revert seen. induction l1 as [| v l1 IH]; intros seen; simpl.
  - rewrite app_nil_r. reflexivity.
  - destruct (existsb (strict_eq v) seen); [apply IH |].
    rewrite IH. simpl. rewrite <- app_assoc. reflexivity.
Qed.

Lemma find_app {A : Type} (f : A -> bool) l1 l2 :
  find f (l1 ++ l2)
  = match find f l1 with
    | Some a => Some a
    | None => find f l2
    end.
Proof.
  induction l1 as [| a l1 IH]; simpl; [reflexivity |].
  destruct (f a); [reflexivity | exact IH].
Qed.

(** Records that come later never change what was sampled before them: the
    sample of a list begins with the sample of each of its prefixes, and a
    column name found in a prefix is the column name of the whole list. *)
Theorem sample_grows_with_the_list jobId prefix rest :
  (exists more,
      sample jobId (prefix ++ rest) = sample jobId prefix ++ more)
  /\ (SampleValuesConfig.sampleValuesColumnName
        (sampleValuesConfig prefix jobId) <> "" ->
      SampleValuesConfig.sampleValuesColumnName
        (sampleValuesConfig (prefix ++ rest) jobId)
      = SampleValuesConfig.sampleValuesColumnName
          (sampleValuesConfig prefix jobId)).
Proof.
  split.
  - rewrite !sample_eq. unfold sampled_values.
    rewrite filter_app, map_app, distinct_app, firstn_app.
    eexists. reflexivity.
  - rewrite !sampleValuesColumnName_eq, find_app.
    destruct (find (sampled jobId) prefix); [reflexivity |].
    intros H. exfalso. apply H. reflexivity.
Qed.

Lemma sample_grows_with_the_list_witness :
  let us := anomaly "j1" (Some "country") (Some "US") (1 # 1) in
  let fr := anomaly "j1" (Some "region") (Some "FR") (1 # 1) in
  SampleValuesConfig.sampleValuesColumnName (sampleValuesConfig ([us] ++ [fr]) "j1")
  = "country".
Proof.
  intros us fr.
  destruct (sample_grows_with_the_list "j1" [us] [fr]) as [_ H].
  rewrite H; [reflexivity | discriminate].
Defined.

(** ** From the suggestions to the layers *)

Lemma stored_suggestions mapsPlugin anomalies jobIds :
  filter not_null (map (suggest mapsPlugin anomalies) jobIds)
  = map Some (flat_map (kept mapsPlugin anomalies) jobIds).
Proof.
  rewrite filter_not_null_map_Some. f_equal.
  apply flat_map_ext. intros jobId. unfold suggest, kept.
  destruct (mapsPlugin (sampleValuesConfig anomalies jobId)); reflexivity.
Qed.

Lemma non_null_map_Some {A : Type} (l : list A) : non_null (map Some l) = l.
Proof. induction l as [| a l IH]; simpl; [| rewrite IH]; reflexivity. Qed.

Lemma layerList_layers EMSSuggestions anomalies w layers w' :
  layerList EMSSuggestions anomalies w = (Normal layers, w') ->
  Forall2 (built_from anomalies) layers (non_null (entries EMSSuggestions))
  /\ forall i layer,
       nth_error layers i = Some layer ->
       VectorLayerDescriptor.visible layer = Nat.eqb i 0.
Proof.
  unfold layerList. intros H.
  destruct EMSSuggestions as [[| s l] |]; simpl.
  - js_inv. split; [constructor |]. intros [| i] ? Hi; discriminate Hi.
  - apply bind_Normal in H. destruct H as (acc & w1 & Hloop & Hret).
    apply ret_Normal in Hret. destruct Hret as [<- _].
    apply layerList_loop in Hloop.
    destruct Hloop as (new & -> & Hbuilt & Hvis).
    split; [exact Hbuilt | exact Hvis].
  - js_inv. split; [constructor |]. intros [| i] ? Hi; discriminate Hi.
Qed.

(** Whenever the layer list is built from the state that
    [getEMSTermSuggestions] stored, it has one layer for each job the service
    answered with a configuration, in the order of [jobIds], built from that
    answer tagged with the job; the visible layer is the one of the first
    such job. *)
Theorem layerList_of_stored_suggestions
    (mapsPlugin : MapsPlugin) anomalies jobIds EMSSuggestions w layers w' :
  layerList
    (getEMSTermSuggestions (Some mapsPlugin) anomalies jobIds EMSSuggestions)
    anomalies w
  = (Normal layers, w') ->
  Forall2 (built_from anomalies) layers
    (flat_map (kept mapsPlugin anomalies) jobIds)
  /\ List.length layers
     = List.length (flat_map (kept mapsPlugin anomalies) jobIds)
  /\ forall i layer,
       nth_error layers i = Some layer ->
       VectorLayerDescriptor.visible layer = Nat.eqb i 0.
Proof.
  intros H. apply layerList_layers in H. destruct H as [Hbuilt Hvis].
  simpl in Hbuilt. rewrite stored_suggestions, non_null_map_Some in Hbuilt.
  split; [exact Hbuilt |]. split; [| exact Hvis].
  eapply Forall2_length. exact Hbuilt.
Qed.

Lemma layerList_of_stored_suggestions_witness :
  let anomalies :=
    [ anomaly "j1" (Some "country") (Some "US") (427 # 10);
      anomaly "j2" (Some "country") (Some "FR") (999 # 10) ] in
  let mapsPlugin : MapsPlugin :=
    fun config =>
      match SampleValuesConfig.sampleValues config with
      | [Some "FR"] => Some (EMSTermJoinConfig.mk "world_countries" "iso2")
      | _ => None
      end in
  let out :=
    layerList (getEMSTermSuggestions (Some mapsPlugin) anomalies ["j1"; "j2"] None)
      anomalies pristine in
  let layers := match fst out with Normal l => l | Throw _ => [] end in
  List.length layers = 1.
Proof.
  intros anomalies mapsPlugin out layers.
  destruct (layerList_of_stored_suggestions mapsPlugin anomalies ["j1"; "j2"]
              None pristine layers (snd out)) as (_ & Hlen & _).
  - vm_compute. reflexivity.
  - rewrite Hlen. reflexivity.
Defined.

Lemma layerList_loop_returns anomalies w0 :
  (forall a, In a anomalies -> inherited w0 (key a) = false) ->
  forall l result count w,
    ObjectPrototype_count w = ObjectPrototype_count w0 ->
    exists new,
      for_each (layerList_step anomalies) l (result, count) w
      = (Normal (result ++ new, count + List.length new),
         mkWorld (ObjectPrototype_count w) (function_count w)
           (idSupply w + List.length (non_null l)))
      /\ map VectorLayerDescriptor.id new
         = map htmlId (seq (idSupply w) (List.length (non_null l))).
Proof.
  intros Hkeys. induction l as [| [s |] l IH]; intros result count w Hw.
  - exists []. simpl. rewrite app_nil_r, !Nat.add_0_r. destruct w.
    split; reflexivity.
  - destruct (getAnomalyRows_returns anomalies (MLEMSTermJoinConfig.jobId s)
                (drawn w)) as [rows Hrows].
    { intros a Hin _. rewrite <- (Hkeys a Hin). unfold inherited, drawn.
      simpl. rewrite Hw. reflexivity. }
    assert (Hlayer :
              getChoroplethAnomaliesLayer anomalies s (Nat.eqb count 0) w
              = (Normal (choropleth_layer (htmlId (idSupply w)) rows s
                           (Nat.eqb count 0)),
                 drawn w)).
    { apply getChoroplethAnomaliesLayer_Normal. exists rows.
      split; [exact Hrows | reflexivity]. }
    destruct (IH (result
                    ++ [choropleth_layer (htmlId (idSupply w)) rows s
                          (Nat.eqb count 0)])
                 (S count) (drawn w) Hw) as (new & Hloop & Hids).
    eexists (_ :: new). split.
    + cbn [for_each layerList_step]. unfold bind at 1. unfold bind at 1.
      rewrite Hlayer. unfold ret at 1. rewrite Hloop. simpl.
      rewrite <- app_assoc. simpl. do 3 f_equal; lia.
    + simpl. rewrite Hids. reflexivity.
  - destruct (IH result count w Hw) as (new & Hloop & Hids).
    exists new. split; [| exact Hids].
    cbn [for_each layerList_step]. unfold bind at 1, ret at 1. exact Hloop.
Qed.

(** For an anomaly list in which no record is filed under an inherited key,
    the layer list is built whatever the suggestions are: it has one layer
    for each non-null suggestion, the identifiers are drawn one for each layer
    in order, and nothing else of the world changes. *)
Theorem layerList_returns EMSSuggestions anomalies w :
  (forall a, In a anomalies -> inherited w (key a) = false) ->
  let n := List.length (non_null (entries EMSSuggestions)) in
  exists layers,
    layerList EMSSuggestions anomalies w
    = (Normal layers,
       mkWorld (ObjectPrototype_count w) (function_count w) (idSupply w + n))
    /\ List.length layers = n
    /\ map VectorLayerDescriptor.id layers = map htmlId (seq (idSupply w) n).
Proof.
  intros Hkeys n. subst n. unfold layerList.
  destruct EMSSuggestions as [[| s l] |].
  - exists []. simpl. rewrite Nat.add_0_r. destruct w. repeat split.
  - destruct (layerList_loop_returns anomalies w Hkeys (s :: l) [] 0 w eq_refl)
      as (new & Hloop & Hids).
    exists new. unfold bind. rewrite Hloop. simpl entries.
    split; [reflexivity |]. split; [| exact Hids].
    rewrite <- (length_map VectorLayerDescriptor.id), Hids, length_map,
      length_seq. reflexivity.
  - exists []. simpl. rewrite Nat.add_0_r. destruct w. repeat split.
Qed.

Lemma layerList_returns_witness :
  let anomalies :=
    [ anomaly "j1" (Some "country") (Some "US") (427 # 10);
      anomaly "j2" (Some "country") (Some "FR") (999 # 10) ] in
  let EMSSuggestions :=
    Some [ Some (MLEMSTermJoinConfig.mk "j1" "world_countries" "iso2");
           None;
           Some (MLEMSTermJoinConfig.mk "j2" "world_countries" "iso2") ] in
  exists layers,
    layerList EMSSuggestions anomalies pristine = (Normal layers, mkWorld false [] 2)
    /\ List.length layers = 2
    /\ map VectorLayerDescriptor.id layers = [htmlId 0; htmlId 1].
Proof.
  intros anomalies EMSSuggestions.
  apply (layerList_returns EMSSuggestions anomalies pristine).
  intros a [<- | [<- | []]]; reflexivity.
Defined.

(** ** What the component renders *)

(** A rendering pass returns [null] exactly when the state is the empty
    array; while the state is still [undefined], it returns the panel with
    an empty layer list. *)
Theorem AnomaliesMap_null_iff_no_suggestion EMSSuggestions anomalies w :
  (fst (AnomaliesMap EMSSuggestions anomalies w) = Normal None
   <-> EMSSuggestions = Some [])
  /\ AnomaliesMap None anomalies w = (Normal (Some (EuiPanel [])), w).
Proof.
  split; [| reflexivity].
  unfold AnomaliesMap. destruct EMSSuggestions as [[| s l] |].
  - split; reflexivity.
  - unfold bind.
    destruct (layerList (Some (s :: l)) anomalies w) as [[layers | e] w1];
      simpl; split; discriminate.
  - simpl. split; discriminate.
Qed.

(** With a maps plugin and a non-empty anomaly list, when the service answers
    every job with [null] the effect stores the empty array and the next
    rendering pass returns [null], without touching the world. *)
Theorem AnomaliesMap_null_when_no_job_is_suggested
    (mapsPlugin : MapsPlugin) anomalies jobIds EMSSuggestions w :
  anomalies <> [] ->
  (forall jobId,
      In jobId jobIds ->
      mapsPlugin (sampleValuesConfig anomalies jobId) = None) ->
  let stored :=
    getInitialEMSTermSuggestions (Some mapsPlugin) anomalies jobIds
      EMSSuggestions in
  stored = Some [] /\ AnomaliesMap stored anomalies w = (Normal None, w).
Proof.
  intros Hne Hnull stored.
  assert (E : stored = Some []).
  { subst stored. unfold getInitialEMSTermSuggestions.
    destruct anomalies as [| a l]; [contradiction |].
    unfold getEMSTermSuggestions. rewrite stored_suggestions. f_equal.
    replace (flat_map (kept mapsPlugin (a :: l)) jobIds) with
      (@nil MLEMSTermJoinConfig.t); [reflexivity |].
    symmetry. induction jobIds as [| jobId jobIds IH]; [reflexivity |].
    simpl. unfold kept at 1. rewrite (Hnull jobId (or_introl eq_refl)).
    apply IH. intros j Hj. apply Hnull. right. exact Hj. }
  rewrite E. split; reflexivity.
Qed.

Lemma AnomaliesMap_null_when_no_job_is_suggested_witness :
  AnomaliesMap
    (getInitialEMSTermSuggestions (Some (fun _ => None))
       [ anomaly "j1" (Some "country") (Some "US") (427 # 10) ] ["j1"; "j2"]
       None)
    [ anomaly "j1" (Some "country") (Some "US") (427 # 10) ] pristine
  = (Normal None, pristine).
Proof.
  apply (AnomaliesMap_null_when_no_job_is_suggested (fun _ => None)
           [ anomaly "j1" (Some "country") (Some "US") (427 # 10) ]
           ["j1"; "j2"] None pristine).
  - discriminate.
  - reflexivity.
Defined.

(** ** The layer of one suggestion *)

(** Whenever the layer builder returns, it has drawn one identifier, used it
    for the layer, and aggregated the rows of the configured job after that;
    the layer has exactly one join, from the configured field to the term
    "entityValue" of the table of these rows, the configured layer as its
    source, the fixed style, and the given visibility. *)
Theorem getChoroplethAnomaliesLayer_layer anomalies config visible w layer w' :
  getChoroplethAnomaliesLayer anomalies config visible w = (Normal layer, w') ->
  exists rows,
    getAnomalyRows anomalies (MLEMSTermJoinConfig.jobId config) (drawn w)
    = (Normal rows, w')
    /\ VectorLayerDescriptor.id layer = htmlId (idSupply w)
    /\ VectorLayerDescriptor.joins layer
       = [ Join.mk (MLEMSTermJoinConfig.field config)
             (TableSource.mk "anomaly_count" TABLE_SOURCE rows
                [ Column.mk "entityValue" "string";
                  Column.mk "count" "number";
                  Column.mk "max_severity" "number" ]
                "entityValue") ]
    /\ VectorLayerDescriptor.sourceDescriptor layer
       = SourceDescriptor.mk "EMS_FILE" (MLEMSTermJoinConfig.layerId config)
    /\ VectorLayerDescriptor.style layer = anomaly_style
    /\ VectorLayerDescriptor.visible layer = visible
    /\ VectorLayerDescriptor.type layer = "VECTOR".
Proof.
  intros H. apply getChoroplethAnomaliesLayer_Normal in H.
  destruct H as (rows & Hrows & ->). exists rows.
  split; [exact Hrows |]. repeat split.
Qed.

Lemma getChoroplethAnomaliesLayer_layer_witness :
  let anomalies := [ anomaly "j1" (Some "country") (Some "US") (427 # 10) ] in
  let config := MLEMSTermJoinConfig.mk "j1" "world_countries" "iso2" in
  let out := getChoroplethAnomaliesLayer anomalies config false pristine in
  exists rows,
    getAnomalyRows anomalies "j1" (drawn pristine) = (Normal rows, snd out).
Proof.
  intros anomalies config out.
  destruct (getChoroplethAnomaliesLayer_layer anomalies config false pristine
              (choropleth_layer (htmlId 0) [AnomalyRow.mk 1 (Some "US") 42]
                 config false)
              (snd out)) as (rows & Hrows & _).
  - vm_compute. reflexivity.
  - exists rows. exact Hrows.
Defined.

(** ** The registered types *)

Lemma append_inj_l (s1 s2 : string) (c : ascii) :
  (s1 ++ String c EmptyString)%string = (s2 ++ String c EmptyString)%string ->
  s1 = s2.
Proof.
  revert s2. induction s1 as [| a s1 IH]; intros [| b s2]; simpl; intros H.
  - reflexivity.
  - injection H as _ H. destruct s2; discriminate H.
  - injection H as _ H. destruct s1; discriminate H.
  - injection H as -> H. f_equal. apply IH. exact H.
Qed.

Section SavedObjectsFurther.
Context {imports : Imports}.
Variable encryptedSavedObjects : EncryptedSavedObjectsPluginSetup.
Variable actionTypeRegistry : ActionTypeRegistry.

(** What the routine adds to the two registries: the same type names, in
    the same order, with both services; every type hidden and bound to a
    single namespace; and never the type "alert", whose name the module also
    exports. *)
Theorem setupSavedObjects_same_names_with_both_services log :
  let log' := setupSavedObjects encryptedSavedObjects actionTypeRegistry log in
  exists types registrations,
    savedObjects_calls log' = savedObjects_calls log ++ types
    /\ encryptedSavedObjects_calls log'
       = encryptedSavedObjects_calls log ++ registrations
    /\ map name types = map type registrations
    /\ ~ In ALERT_SAVED_OBJECT_TYPE (map name types)
    /\ Forall (fun t => hidden t = true /\ namespaceType t = "single") types.
Proof.
  intros log'. subst log'.
  rewrite setupSavedObjects_log, savedObjects_calls_app,
    encryptedSavedObjects_calls_app.
  eexists _, _. split; [reflexivity |]. split; [reflexivity |].
  split; [reflexivity |]. split.
  - simpl. intros [H | [H | []]]; discriminate H.
  - repeat constructor.
Qed.

(** The title of a connector is "Connector: [name]": two saved objects
    have the same title only if they have the same name. *)
Theorem getTitle_determines_name (obj1 obj2 : SavedObject) :
  getTitle (action_management actionTypeRegistry) obj1
  = getTitle (action_management actionTypeRegistry) obj2 ->
  attributes_name obj1 = attributes_name obj2.
Proof.
  simpl. intros H. injection H as H. apply append_inj_l in H. exact H.
Qed.
End SavedObjectsFurther.

Lemma getTitle_determines_name_witness :
  getTitle (action_management (imports := unit_imports) tt) "mail"
  = "Connector: [mail]"
  /\ attributes_name (Imports := unit_imports) "mail" = "mail".
Proof.
  split; [reflexivity |].
  apply (getTitle_determines_name (imports := unit_imports) tt "mail" "mail").
  reflexivity.
Defined.

(** ** When the aggregation throws, and what it changes *)

(** An iteration changes the world only for a record of the job whose entity
    value names a property of [Object.prototype], gives [Object.prototype] a
    [count] only for the entity value "__proto__", and throws only for the
    entity value "count" in a world where [Object.prototype] has a [count]. *)
Lemma getAnomalyRows_body_outcome j o a w c w1 :
  getAnomalyRows_body j o a w = (c, w1) ->
  (AnomaliesTableRecord.jobId a <> j \/ ObjectPrototype_has (key a) = false ->
   w1 = w)
  /\ (ObjectPrototype_count w1 = ObjectPrototype_count w
      \/ (AnomaliesTableRecord.jobId a = j /\ key a = "__proto__"
          /\ ObjectPrototype_count w1 = true))
  /\ (forall e, c = Throw e ->
                e = TypeError
                /\ w1 = w
                /\ AnomaliesTableRecord.jobId a = j /\ key a = "count"
                /\ ObjectPrototype_count w = true).
Proof.
  unfold getAnomalyRows_body, ObjectPrototype_has. fold (key a).
  destruct (String.eqb_spec (AnomaliesTableRecord.jobId a) j) as [Ej | NE];
    cbn [negb].
  - unfold Get.
    destruct (own (key a) o);
      [intros E; injection E as <- <-; split; [auto | split; [auto | discriminate]] |].
    destruct (existsb (String.eqb (key a)) ObjectPrototype_functions).
    { intros E. injection E as <- <-. cbn [orb ObjectPrototype_count]. split; [| split].
      - intros [Hj | Hf]; [contradiction | discriminate Hf].
      - left. reflexivity.
      - discriminate. }
    destruct (String.eqb_spec (key a) "__proto__") as [Ep | _].
    { intros E. injection E as <- <-. cbn [orb ObjectPrototype_count]. split; [| split].
      - intros [Hj | Hf]; [contradiction | discriminate Hf].
      - right. auto.
      - discriminate. }
    destruct (String.eqb_spec (key a) "count") as [Ec | _]; cbn [andb];
      [| intros E; injection E as <- <-; split; [auto | split; [auto | discriminate]]].
    destruct (ObjectPrototype_count w) eqn:Ew;
      [| intros E; injection E as <- <-; split; [auto | split; [auto | discriminate]]].
    unfold throw. intros E. injection E as <- <-.
    split; [auto |]. split; [auto |]. intros e He. injection He as <-. auto.
  - intros E. injection E as <- <-. split; [auto | split; [auto | discriminate]].
Qed.

Lemma getAnomalyRows_loop_Throw j l :
  forall o w e w',
    for_each (getAnomalyRows_body j) l o w = (Throw e, w') ->
    e = TypeError
    /\ ObjectPrototype_count w' = true
    /\ (exists a, In a l /\ AnomaliesTableRecord.jobId a = j
                  /\ key a = "count")
    /\ (ObjectPrototype_count w = true
        \/ exists a, In a l /\ AnomaliesTableRecord.jobId a = j
                     /\ key a = "__proto__").
Proof.
  induction l as [| a l IH]; intros o w e w' H; simpl in H; [discriminate |].
  unfold bind in H.
  destruct (getAnomalyRows_body j o a w) as [[o1 | e1] w1] eqn:Hbody.
  - destruct (getAnomalyRows_body_outcome _ _ _ _ _ _ Hbody) as (_ & Hw & _).
    destruct (IH _ _ _ _ H) as (He & Hw' & (b & Hb & Hbj & Hbk) & Hor).
    split; [exact He |]. split; [exact Hw' |]. split.
    + exists b. split; [right; exact Hb | auto].
    + destruct Hor as [Hor | (p & Hp & Hpj & Hpk)].
      * destruct Hw as [Hw | (Hj & Hk & _)]; [left; congruence |].
        right. exists a. split; [left; reflexivity | auto].
      * right. exists p. split; [right; exact Hp | auto].
  - injection H as <- <-.
    destruct (getAnomalyRows_body_outcome _ _ _ _ _ _ Hbody) as (_ & _ & Ht).
    destruct (Ht e1 eq_refl) as (He & -> & Hj & Hk & Hc).
    split; [exact He |]. split; [exact Hc |]. split.
    + exists a. split; [left; reflexivity | auto].
    + left. exact Hc.
Qed.

(** The aggregation can only throw a TypeError, and only when a record of the
    job has the entity value "count" while [Object.prototype] has a [count]
    property: one that was there before the call, or one the call created
    for a record of the job with the entity value "__proto__". *)
Theorem getAnomalyRows_throws_only_on_count anomalies j w e w' :
  getAnomalyRows anomalies j w = (Throw e, w') ->
  e = TypeError
  /\ ObjectPrototype_count w' = true
  /\ (exists a, In a anomalies /\ AnomaliesTableRecord.jobId a = j
                /\ key a = "count")
  /\ (ObjectPrototype_count w = true
      \/ exists a, In a anomalies /\ AnomaliesTableRecord.jobId a = j
                   /\ key a = "__proto__").
Proof.
  unfold getAnomalyRows, bind. intros H.
  destruct (for_each (getAnomalyRows_body j) anomalies [] w)
    as [[o | e1] w1] eqn:Hloop; [discriminate |].
  injection H as <- <-. eapply getAnomalyRows_loop_Throw. exact Hloop.
Qed.

Lemma getAnomalyRows_throws_only_on_count_witness :
  exists a,
    In a [ anomaly "j1" (Some "field") (Some "__proto__") (1 # 1);
           anomaly "j1" (Some "field") (Some "count") (1 # 1) ]
    /\ AnomaliesTableRecord.jobId a = "j1" /\ key a = "count".
Proof.
  destruct (getAnomalyRows_throws_only_on_count
              [ anomaly "j1" (Some "field") (Some "__proto__") (1 # 1);
                anomaly "j1" (Some "field") (Some "count") (1 # 1) ]
              "j1" pristine TypeError (mkWorld true [] 0))
    as (_ & _ & H & _).
  - vm_compute. reflexivity.
  - exact H.
Defined.




(** A record of the job whose entity value names a function of
    [Object.prototype] makes the aggregation write on that function. *)
Example getAnomalyRows_writes_on_function :
  snd (getAnomalyRows
         [ anomaly "j1" (Some "field") (Some "toString") (1 # 1);
           anomaly "j1" (Some "field") (Some "constructor") (1 # 1);
           anomaly "j1" (Some "field") (Some "toString") (1 # 1) ]
         "j1" pristine)
  = mkWorld false ["toString"; "constructor"] 0.
Proof. vm_compute. reflexivity. Qed.

(** ** The order of the records *)

Lemma summary_bounds g r :
  summary g = Some r ->
  AnomalyRow.count r = Z.of_nat (List.length g)
  /\ (exists a, In a g
                /\ AnomalyRow.max_severity r
                   = Qfloor (AnomaliesTableRecord.severity a))
  /\ (forall a, In a g ->
                (Qfloor (AnomaliesTableRecord.severity a)
                 <= AnomalyRow.max_severity r)%Z).
Proof.
  destruct g as [| b g]; [discriminate |]. intros E. injection E as <-.
  cbn [AnomalyRow.count AnomalyRow.max_severity].
  split; [reflexivity |]. split.
  - destruct (maximum_attained (AnomaliesTableRecord.severity b)
                (map AnomaliesTableRecord.severity g)) as (x & Hx & E).
    destruct Hx as [<- | Hx].
    + exists b. split; [left; reflexivity | apply Qfloor_comp; exact E].
    + apply in_map_iff in Hx. destruct Hx as (a & <- & Ha).
      exists a. split; [right; exact Ha | apply Qfloor_comp; exact E].
  - intros a Ha. apply Qfloor_resp_le, maximum_ge.
    destruct Ha as [<- | Ha]; [left; reflexivity |].
    right. apply in_map. exact Ha.
Qed.

Lemma group_perm j k l1 l2 :
  Permutation l1 l2 -> Permutation (group j k l1) (group j k l2).
Proof.
  unfold group. induction 1 as [| a l1 l2 _ IH | a b l | l1 l2 l3 _ IH1 _ IH2];
    simpl.
  - constructor.
  - destruct (_ && _); [constructor |]; exact IH.
  - destruct (String.eqb (AnomaliesTableRecord.jobId b) j && String.eqb (key b) k),
      (String.eqb (AnomaliesTableRecord.jobId a) j && String.eqb (key a) k);
      try reflexivity. apply perm_swap.
  - eapply Permutation_trans; eassumption.
Qed.

(** The key, the count and the [max_severity] of the rows do not depend on
    the order of the records: when the aggregation returns for a list and
    for a rearrangement of it, every row of the one has a row of the other
    with the same key, count and [max_severity]. *)
Theorem getAnomalyRows_order_independent l1 l2 j w1 w2 rows1 rows2 w1' w2' :
  Permutation l1 l2 ->
  getAnomalyRows l1 j w1 = (Normal rows1, w1') ->
  getAnomalyRows l2 j w2 = (Normal rows2, w2') ->
  forall r1,
    In r1 rows1 ->
    exists r2,
      In r2 rows2
      /\ row_key r2 = row_key r1
      /\ AnomalyRow.count r2 = AnomalyRow.count r1
      /\ AnomalyRow.max_severity r2 = AnomalyRow.max_severity r1.
Proof.
  intros Hperm H1 H2 r1 Hr1.
  destruct (getAnomalyRows_partition _ _ _ _ _ H1) as (_ & Hrows1 & _).
  destruct (getAnomalyRows_partition _ _ _ _ _ H2) as (_ & Hrows2 & Hrec2).
  destruct (Hrows1 r1 Hr1) as [Hhas Hsum1].
  pose proof (group_perm j (row_key r1) _ _ Hperm) as Hg.
  destruct (summary_bounds _ _ Hsum1) as (Hc1 & (a1 & Ha1 & Hm1) & Hle1).
  assert (Ha : In a1 l2 /\ AnomaliesTableRecord.jobId a1 = j
               /\ key a1 = row_key r1).
  { apply group_In. apply (Permutation_in _ Hg). exact Ha1. }
  destruct Ha as (Hin & Hj & Hk).
  destruct (Hrec2 a1 Hin Hj) as (r2 & Hr2 & Hk2); [congruence |].
  rewrite Hk in Hk2.
  destruct (Hrows2 r2 Hr2) as [_ Hsum2]. rewrite Hk2 in Hsum2.
  destruct (summary_bounds _ _ Hsum2) as (Hc2 & (a2 & Ha2 & Hm2) & Hle2).
  exists r2. split; [exact Hr2 |]. split; [exact Hk2 |]. split.
  - rewrite Hc1, Hc2. f_equal. symmetry. apply Permutation_length. exact Hg.
  - apply Z.le_antisymm.
    + rewrite Hm2. apply Hle1.
      apply (Permutation_in _ (Permutation_sym Hg)). exact Ha2.
    + rewrite Hm1. apply Hle2. apply (Permutation_in _ Hg). exact Ha1.
Qed.

Lemma getAnomalyRows_order_independent_witness :
  let us := anomaly "j1" (Some "country") (Some "US") (427 # 10) in
  let fr := anomaly "j1" (Some "country") (Some "FR") (7 # 2) in
  let us' := anomaly "j1" (Some "country") (Some "US") (999 # 10) in
  exists r2,
    In r2 [AnomalyRow.mk 1 (Some "FR") 3; AnomalyRow.mk 2 (Some "US") 99]
    /\ row_key r2 = "US"
    /\ AnomalyRow.count r2 = 2%Z
    /\ AnomalyRow.max_severity r2 = 99%Z.
Proof.
  intros us fr us'.
  assert (Hperm : Permutation [us; fr; us'] [fr; us'; us])
    by apply (Permutation_cons_append [fr; us'] us).
  assert (E1 : getAnomalyRows [us; fr; us'] "j1" pristine
               = (Normal [ AnomalyRow.mk 2 (Some "US") 99;
                           AnomalyRow.mk 1 (Some "FR") 3 ], pristine))
    by (vm_compute; reflexivity).
  assert (E2 : getAnomalyRows [fr; us'; us] "j1" pristine
               = (Normal [ AnomalyRow.mk 1 (Some "FR") 3;
                           AnomalyRow.mk 2 (Some "US") 99 ], pristine))
    by (vm_compute; reflexivity).
  exact (getAnomalyRows_order_independent _ _ _ _ _ _ _ _ _ Hperm E1 E2
           (AnomalyRow.mk 2 (Some "US") 99) (or_introl eq_refl)).
Defined.
